(** * arm-neon-simd: aligned buffers, bulk array operations and 4-lane kernels

    A shallow embedding of [memory_align.h], [neon_types.h] and
    [neon_utils.h].

    - [size_t] and [uintptr_t] are 64-bit: values are [Z] and every
      arithmetic operation the C code performs on them is wrapped modulo
      [2^64] ([SizeT]).
    - Memory is byte addressed.  A [memory] holds the contents of every
      address and the table of live objects (base address and byte size).
      Every load, store, [memcpy] and [free] is checked against that table;
      what C leaves undefined is a [Fault].
    - [posix_memalign] is the environment: its answer is an argument
      ([option Z], the address it hands out or [None] for ENOMEM).
    - A [float32x4_t] is four 32-bit lanes; arithmetic intrinsics decode a
      lane to IEEE-754 binary32 ([SpecFloat] at precision 24, emax 128),
      compute with round-to-nearest-even and encode the result.
    - The AArch64 branches of the [#ifdef]s are the ones embedded (the
      library includes [<arm_neon.h>] and calls [vfmaq_f32] unconditionally).
    - The POSIX branch of [aligned_malloc]/[aligned_free] is the one
      embedded. *)

From Stdlib Require Import ZArith Zpower Lia List Bool.
From Stdlib Require Import Strings.Byte.
From Stdlib Require Import Floats.SpecFloat.
From stdpp Require Import base gmap.

Open Scope Z_scope.

(** ** Machine integers *)

Module SizeT.
Definition modulus : Z := 2 ^ 64.
Definition wrap (z : Z) : Z := z mod modulus.
Definition add (a b : Z) : Z := wrap (a + b).
Definition sub (a b : Z) : Z := wrap (a - b).
Definition mul (a b : Z) : Z := wrap (a * b).
Definition in_range (z : Z) : Prop := 0 <= z < modulus.
End SizeT.

Definition sizeof_float : Z := 4.
Definition sizeof_pointer : Z := 8.
Definition NULL : Z := 0.

(** neon_types.h *)
Definition NEON_ALIGNMENT : Z := 16.
Definition NEON_F32_LANES : Z := 4.

Inductive NeonError :=
| NEON_SUCCESS
| NEON_ERROR_NULL_POINTER
| NEON_ERROR_INVALID_SIZE
| NEON_ERROR_MISALIGNED
| NEON_ERROR_OUT_OF_MEMORY
| NEON_ERROR_INVALID_PARAM.

Definition NeonError_value (e : NeonError) : Z :=
  match e with
  | NEON_SUCCESS => 0
  | NEON_ERROR_NULL_POINTER => -1
  | NEON_ERROR_INVALID_SIZE => -2
  | NEON_ERROR_MISALIGNED => -3
  | NEON_ERROR_OUT_OF_MEMORY => -4
  | NEON_ERROR_INVALID_PARAM => -5
  end.

(** [IS_ALIGNED(ptr)]: [((uintptr_t)(ptr) & (NEON_ALIGNMENT - 1)) == 0] *)
Definition IS_ALIGNED (ptr : Z) : bool :=
  Z.land ptr (NEON_ALIGNMENT - 1) =? 0.

Record AlignedBuffer := mkBuffer {
  data : Z;
  size : Z;
  capacity : Z
}.

(** ** Outcomes: a result, or the undefined behaviour that was reached *)

Inductive fault :=
| InvalidFree      (* free of an address that is not a live block *)
| OutOfBounds      (* access outside every live object *)
| OverlappingCopy  (* memcpy with overlapping ranges *)
| OutOfFuel.       (* a loop of the model ran out of fuel *)

Inductive outcome (A : Type) :=
| Ok (a : A)
| Fault (f : fault).
Arguments Ok {A} a.
Arguments Fault {A} f.

Definition obind {A B} (c : outcome A) (k : A -> outcome B) : outcome B :=
  match c with
  | Ok a => k a
  | Fault f => Fault f
  end.

Notation "'let*' x ':=' c 'in' k" := (obind c (fun x => k))
  (at level 10, x name, c at level 200, k at level 200).
Notation "'let*' ' p ':=' c 'in' k" :=
  (obind c (fun x => match x with p => k end))
  (at level 10, p pattern, c at level 200, k at level 200).

(** ** Memory *)

Record memory := mkMem {
  contents : Z -> byte;
  blocks : gmap Z Z
}.

(** [n] bytes from [p] lie inside one live object. *)
Definition in_block (m : memory) (p n : Z) : bool :=
  bool_decide (map_Exists (fun b sz => b <= p /\ p + n <= b + sz) (blocks m)).

Definition ranges_disjoint (p q n : Z) : bool :=
  (p + n <=? q) || (q + n <=? p).

Definition write_bytes (m : memory) (p n : Z) (f : Z -> byte) : memory :=
  mkMem (fun a => if (p <=? a) && (a <? p + n) then f (a - p) else contents m a)
        (blocks m).

(** libc [memcpy(dst, src, n)] *)
Definition memcpy (dst src n : Z) (m : memory) : outcome memory :=
  if negb (in_block m dst n && in_block m src n) then Fault OutOfBounds
  else if negb (ranges_disjoint dst src n) then Fault OverlappingCopy
  else Ok (write_bytes m dst n (fun k => contents m (src + k))).

(** libc [free(p)] *)
Definition free (p : Z) (m : memory) : outcome memory :=
  if p =? NULL then Ok m
  else match blocks m !! p with
       | Some _ => Ok (mkMem (contents m) (delete p (blocks m)))
       | None => Fault InvalidFree
       end.

(** The address [p] can serve as a new block of [n] bytes at [alignment]. *)
Definition fresh_block (m : memory) (p n alignment : Z) : bool :=
  (0 <? p) && (p mod alignment =? 0) && (p + n <=? SizeT.modulus)
  && bool_decide (blocks m !! p = None)
  && bool_decide (map_Forall (fun b sz => p + n <= b \/ b + sz <= p) (blocks m)).

Definition EINVAL : Z := 22.
Definition ENOMEM : Z := 12.

Definition is_pow2b (a : Z) : bool :=
  (0 <? a) && (Z.land a (a - 1) =? 0).

(** POSIX [posix_memalign(&ptr, alignment, size)]: the error number, the
    pointer left in [ptr] and the memory.  [env] is what the allocator
    answers: [None] when it has no memory, [Some p] when it hands out the
    block at [p].  A success that stores a null pointer (allowed for
    [size = 0]) is not distinguished from ENOMEM: [aligned_malloc] returns
    [NULL] for both. *)
Definition posix_memalign (ptr alignment sz : Z) (env : option Z) (m : memory)
  : Z * Z * memory :=
  if negb (is_pow2b alignment && (alignment mod sizeof_pointer =? 0))
  then (EINVAL, ptr, m)
  else match env with
       | Some p =>
           if fresh_block m p sz alignment
           then (0, p, mkMem (contents m) (<[p := sz]> (blocks m)))
           else (ENOMEM, ptr, m)
       | None => (ENOMEM, ptr, m)
       end.

(** ** memory_align.h: allocation *)

Definition aligned_malloc (sz alignment : Z) (env : option Z) (m : memory)
  : Z * memory :=
  let ptr := NULL in
  if (alignment =? 0) || negb (Z.land alignment (SizeT.sub alignment 1) =? 0)
  then (NULL, m)
  else
    let '(rc, ptr, m') := posix_memalign ptr alignment sz env m in
    if negb (rc =? 0) then (NULL, m') else (ptr, m').

Definition aligned_free (ptr : Z) (m : memory) : outcome memory :=
  if ptr =? NULL then Ok m else free ptr m.

Definition neon_malloc (sz : Z) (env : option Z) (m : memory) : Z * memory :=
  aligned_malloc sz NEON_ALIGNMENT env m.

Definition neon_free (ptr : Z) (m : memory) : outcome memory :=
  aligned_free ptr m.

(** ** memory_align.h: aligned buffers

    An [AlignedBuffer*] argument is [None] for a null pointer and
    [Some b] for a pointer to the caller's struct; the struct after the call
    is returned next to the memory. *)

Definition aligned_buffer_create (cap : Z) (env : option Z) (m : memory)
  : AlignedBuffer * memory :=
  let '(p, m') := neon_malloc (SizeT.mul cap sizeof_float) env m in
  let buffer := mkBuffer p 0 cap in
  let buffer :=
    if data buffer =? NULL then mkBuffer (data buffer) (size buffer) 0
    else buffer in
  (buffer, m').

Definition aligned_buffer_destroy (buffer : option AlignedBuffer) (m : memory)
  : outcome (option AlignedBuffer * memory) :=
  match buffer with
  | None => Ok (None, m)
  | Some b =>
      let* m1 :=
        (if negb (data b =? NULL)
         then let* m' := neon_free (data b) m in
              (* [buffer->data == NULL;] is a comparison whose value is
                 discarded: the field keeps its value *)
              let _ := data b =? NULL in
              Ok m'
         else Ok m) in
      Ok (Some (mkBuffer (data b) 0 0), m1)
  end.

Definition aligned_buffer_resize (buffer : option AlignedBuffer)
    (new_capacity : Z) (env : option Z) (m : memory)
  : outcome (NeonError * option AlignedBuffer * memory) :=
  match buffer with
  | None => Ok (NEON_ERROR_NULL_POINTER, None, m)
  | Some b =>
      if new_capacity <=? capacity b then Ok (NEON_SUCCESS, Some b, m)
      else
        let '(new_data, m1) :=
          neon_malloc (SizeT.mul new_capacity sizeof_float) env m in
        if new_data =? NULL then Ok (NEON_ERROR_OUT_OF_MEMORY, Some b, m1)
        else
          let* m2 :=
            (if negb (data b =? NULL)
             then let* m' := memcpy new_data (data b)
                               (SizeT.mul (size b) sizeof_float) m1 in
                  neon_free (data b) m'
             else Ok m1) in
          Ok (NEON_SUCCESS, Some (mkBuffer new_data (size b) new_capacity), m2)
  end.

(** The data-model invariant of a buffer in a memory: [size <= capacity];
    [data] is null with capacity 0, or the base of a live block of exactly
    [capacity] floats. *)
Definition wf_buffer (m : memory) (b : AlignedBuffer) : Prop :=
  0 <= size b <= capacity b /\
  sizeof_float * capacity b < SizeT.modulus /\
  (data b = NULL -> capacity b = 0) /\
  (data b <> NULL -> blocks m !! data b = Some (sizeof_float * capacity b)).

(** ** Bytes, lanes and 128-bit registers *)

Definition Z_of_byte (b : byte) : Z := Z.of_N (Byte.to_N b).

Definition byte_of_Z (z : Z) : byte :=
  match Byte.of_N (Z.to_N (z mod 256)) with
  | Some b => b
  | None => x00
  end.

(** A 32-bit lane from its four bytes in memory order (little endian). *)
Definition lane_of_bytes (b0 b1 b2 b3 : byte) : Z :=
  Z_of_byte b0 + 2 ^ 8 * Z_of_byte b1 + 2 ^ 16 * Z_of_byte b2
  + 2 ^ 24 * Z_of_byte b3.

(** Byte [k] (0..3) of a lane. *)
Definition lane_byte (v : Z) (k : Z) : byte := byte_of_Z (v / 2 ^ (8 * k)).

Definition is_lane (v : Z) : Prop := 0 <= v < 2 ^ 32.

Record vec128 := mkV4 { lane0 : Z; lane1 : Z; lane2 : Z; lane3 : Z }.

Definition float32x4_t := vec128.
Definition uint32x4_t := vec128.

Definition vec_lane (v : vec128) (k : Z) : Z :=
  if k =? 0 then lane0 v
  else if k =? 1 then lane1 v
  else if k =? 2 then lane2 v
  else lane3 v.

Definition vec_map2 (f : Z -> Z -> Z) (a b : vec128) : vec128 :=
  mkV4 (f (lane0 a) (lane0 b)) (f (lane1 a) (lane1 b))
       (f (lane2 a) (lane2 b)) (f (lane3 a) (lane3 b)).

Definition vec_map3 (f : Z -> Z -> Z -> Z) (a b c : vec128) : vec128 :=
  mkV4 (f (lane0 a) (lane0 b) (lane0 c)) (f (lane1 a) (lane1 b) (lane1 c))
       (f (lane2 a) (lane2 b) (lane2 c)) (f (lane3 a) (lane3 b) (lane3 c)).

(** Pointer arithmetic on [float*]: [p + i]. *)
Definition ptr_add (p i : Z) : Z := p + sizeof_float * i.

Definition read_lane (m : memory) (p : Z) : Z :=
  lane_of_bytes (contents m p) (contents m (p + 1))
                (contents m (p + 2)) (contents m (p + 3)).

(** Scalar [float] load [p[0]] and store [p[0] = v]. *)
Definition load_f32 (m : memory) (p : Z) : outcome Z :=
  if in_block m p 4 then Ok (read_lane m p) else Fault OutOfBounds.

Definition store_f32 (m : memory) (p : Z) (v : Z) : outcome memory :=
  if in_block m p 4 then Ok (write_bytes m p 4 (fun k => lane_byte v k))
  else Fault OutOfBounds.

(** [vld1q_f32(p)]: four consecutive floats into one register. *)
Definition vld1q_f32 (m : memory) (p : Z) : outcome float32x4_t :=
  if in_block m p 16
  then Ok (mkV4 (read_lane m p) (read_lane m (p + 4))
                (read_lane m (p + 8)) (read_lane m (p + 12)))
  else Fault OutOfBounds.

(** [vst1q_f32(p, v)]: the four lanes to consecutive floats. *)
Definition vst1q_f32 (m : memory) (p : Z) (v : float32x4_t) : outcome memory :=
  if in_block m p 16
  then Ok (write_bytes m p 16
             (fun k => lane_byte (vec_lane v (k / 4)) (k mod 4)))
  else Fault OutOfBounds.

(** [vdupq_n_f32(value)] *)
Definition vdupq_n_f32 (value : Z) : float32x4_t :=
  mkV4 value value value value.

(** ** Loops

    [for (; cond(i); i = step(i)) body(i)], one unit of fuel per test of the
    condition.  The final value of [i] is returned with the memory. *)

Fixpoint for_loop (fuel : nat) (cond : Z -> bool) (step : Z -> Z)
    (body : Z -> memory -> outcome memory) (i : Z) (m : memory)
  : outcome (Z * memory) :=
  match fuel with
  | O => Fault OutOfFuel
  | S fuel' =>
      if cond i
      then let* m' := body i m in for_loop fuel' cond step body (step i) m'
      else Ok (i, m)
  end.

(** ** memory_align.h: bulk operations *)

Definition neon_memory_f32 (fuel : nat) (dst src size : Z) (m : memory)
  : outcome memory :=
  if negb (IS_ALIGNED dst) || negb (IS_ALIGNED src)
  then memcpy dst src (SizeT.mul size sizeof_float) m
  else
    let i := 0 in
    let* '(i, m) :=
      for_loop fuel (fun i => SizeT.add i 16 <=? size) (fun i => SizeT.add i 16)
        (fun i m =>
           let* v0 := vld1q_f32 m (ptr_add src i) in
           let* v1 := vld1q_f32 m (ptr_add (ptr_add src i) 4) in
           let* v2 := vld1q_f32 m (ptr_add (ptr_add src i) 8) in
           let* v3 := vld1q_f32 m (ptr_add (ptr_add src i) 12) in
           let* m := vst1q_f32 m (ptr_add dst i) v0 in
           let* m := vst1q_f32 m (ptr_add (ptr_add dst i) 4) v1 in
           let* m := vst1q_f32 m (ptr_add (ptr_add dst i) 8) v2 in
           vst1q_f32 m (ptr_add (ptr_add dst i) 12) v3)
        i m in
    let* '(i, m) :=
      for_loop fuel (fun i => SizeT.add i 4 <=? size) (fun i => SizeT.add i 4)
        (fun i m =>
           let* v := vld1q_f32 m (ptr_add src i) in
           vst1q_f32 m (ptr_add dst i) v)
        i m in
    let* '(i, m) :=
      for_loop fuel (fun i => i <? size) (fun i => SizeT.add i 1)
        (fun i m =>
           let* x := load_f32 m (ptr_add src i) in
           store_f32 m (ptr_add dst i) x)
        i m in
    Ok m.

Definition neon_fill_f32 (fuel : nat) (dst value size : Z) (m : memory)
  : outcome memory :=
  if negb (IS_ALIGNED dst)
  then
    let* '(i, m) :=
      for_loop fuel (fun i => i <? size) (fun i => SizeT.add i 1)
        (fun i m => store_f32 m (ptr_add dst i) value) 0 m in
    Ok m
  else
    let v := vdupq_n_f32 value in
    let i := 0 in
    let* '(i, m) :=
      for_loop fuel (fun i => SizeT.add i 16 <=? size) (fun i => SizeT.add i 16)
        (fun i m =>
           let* m := vst1q_f32 m (ptr_add dst i) v in
           let* m := vst1q_f32 m (ptr_add (ptr_add dst i) 4) v in
           let* m := vst1q_f32 m (ptr_add (ptr_add dst i) 8) v in
           vst1q_f32 m (ptr_add (ptr_add dst i) 12) v)
        i m in
    let* '(i, m) :=
      for_loop fuel (fun i => SizeT.add i 4 <=? size) (fun i => SizeT.add i 4)
        (fun i m => vst1q_f32 m (ptr_add dst i) v)
        i m in
    let* '(i, m) :=
      for_loop fuel (fun i => i <? size) (fun i => SizeT.add i 1)
        (fun i m => store_f32 m (ptr_add dst i) value)
        i m in
    Ok m.

(** Both bulk operations write, front to back, the bytes [g 0], [g 1], ...
    to [dst].  [written m dst g c mi] says that [mi] is the memory [m] with
    the first [c] of those bytes in place. *)
Definition written (m : memory) (dst : Z) (g : Z -> byte) (c : Z) (mi : memory)
  : Prop :=
  blocks mi = blocks m /\
  forall a, contents mi a = contents (write_bytes m dst c g) a.

(** Byte [k] of what a copy from [src] writes, and of what a fill with
    [value] writes. *)
Definition copy_byte (m : memory) (src : Z) : Z -> byte :=
  fun k => contents m (src + k).
Definition fill_byte (value : Z) : Z -> byte :=
  fun k => lane_byte value (k mod 4).

(** The memory [memcpy] produces: the first [c] bytes of [src] at [dst]. *)
Definition copied (m : memory) (dst src c : Z) : memory :=
  write_bytes m dst c (copy_byte m src).

Ltac ptr := unfold ptr_add, sizeof_float in *; lia.

(** A span of [n] floats at the non-null address [p]: inside the address
    space and inside one live object. *)
Definition valid_span (m : memory) (p n : Z) : Prop :=
  0 < p /\ 0 <= n /\ p + sizeof_float * n <= SizeT.modulus /\
  in_block m p (sizeof_float * n) = true.

(** The float at index [i] of the span at [p]. *)
Definition span_get (m : memory) (p i : Z) : Z := read_lane m (ptr_add p i).

(** ** IEEE-754 binary32 lanes *)

Module F32.
Definition prec : Z := 24.
Definition emax : Z := 128.

Definition sign_bit (s : bool) : Z := if s then 2 ^ 31 else 0.

(** The float of a sign [s], a biased exponent [e] (8 bits) and a
    fraction [f] (23 bits). *)
Definition decode (s : bool) (e f : Z) : spec_float :=
  if e =? 0 then
    match f with
    | Zpos p => S754_finite s p (-149)
    | _ => S754_zero s
    end
  else if e =? 255 then
    if f =? 0 then S754_infinity s else S754_nan
  else
    match f + 2 ^ 23 with
    | Zpos p => S754_finite s p (e - 150)
    | _ => S754_nan
    end.

(** Decoding of the 32-bit interchange format: sign (bit 31), biased
    exponent (bits 30..23), fraction (bits 22..0). *)
Definition of_bits (w : Z) : spec_float :=
  decode ((w / 2 ^ 31) mod 2 =? 1) ((w / 2 ^ 23) mod 2 ^ 8) (w mod 2 ^ 23).

(** Encoding; a NaN result is the default NaN. *)
Definition to_bits (x : spec_float) : Z :=
  match x with
  | S754_zero s => sign_bit s
  | S754_infinity s => sign_bit s + 255 * 2 ^ 23
  | S754_nan => 255 * 2 ^ 23 + 2 ^ 22
  | S754_finite s m e =>
      if Zpos m <? 2 ^ 23 then sign_bit s + Zpos m
      else sign_bit s + (e + 150) * 2 ^ 23 + (Zpos m - 2 ^ 23)
  end.

Definition sf_sign (x : spec_float) : bool :=
  match x with
  | S754_zero s | S754_infinity s | S754_finite s _ _ => s
  | S754_nan => false
  end.

Definition sf_finite (x : spec_float) : bool :=
  match x with
  | S754_zero _ | S754_finite _ _ _ => true
  | _ => false
  end.

Definition sf_is_nan (x : spec_float) : bool :=
  match x with
  | S754_nan => true
  | _ => false
  end.

(** Arm [FPMax]: a NaN operand gives NaN; otherwise the first operand if
    it is greater, else the second; a zero result takes the conjunction
    of the operands' signs. *)
Definition FPMax (x y : spec_float) : spec_float :=
  match SFcompare x y with
  | None => S754_nan
  | Some c =>
      let r := match c with Gt => x | _ => y end in
      match r with
      | S754_zero _ => S754_zero (sf_sign x && sf_sign y)
      | _ => r
      end
  end.

(** Arm [FPMin]: dual, a zero result takes the disjunction of the signs. *)
Definition FPMin (x y : spec_float) : spec_float :=
  match SFcompare x y with
  | None => S754_nan
  | Some c =>
      let r := match c with Lt => x | _ => y end in
      match r with
      | S754_zero _ => S754_zero (sf_sign x || sf_sign y)
      | _ => r
      end
  end.

(** Sum of an infinite or zero product of sign [s] with [z]. *)
Definition add_special (inf : bool) (s : bool) (z : spec_float) : spec_float :=
  match z with
  | S754_nan => S754_nan
  | S754_infinity sz =>
      if inf then (if Bool.eqb s sz then z else S754_nan) else z
  | S754_zero sz =>
      if inf then S754_infinity s
      else if Bool.eqb s sz then z else S754_zero false
  | S754_finite _ _ _ => if inf then S754_infinity s else z
  end.

(** Fused multiply-add [x * y + z]: the exact product and sum, rounded
    once. *)
Definition SFfma (x y z : spec_float) : spec_float :=
  match x, y with
  | S754_nan, _ | _, S754_nan => S754_nan
  | S754_infinity _, S754_zero _ | S754_zero _, S754_infinity _ => S754_nan
  | S754_infinity sx, S754_infinity sy
  | S754_infinity sx, S754_finite sy _ _
  | S754_finite sx _ _, S754_infinity sy => add_special true (xorb sx sy) z
  | S754_zero sx, S754_zero sy
  | S754_zero sx, S754_finite sy _ _
  | S754_finite sx _ _, S754_zero sy => add_special false (xorb sx sy) z
  | S754_finite sx mx ex, S754_finite sy my ey =>
      let s := xorb sx sy in
      let mp := Pos.mul mx my in
      let ep := ex + ey in
      match z with
      | S754_nan => S754_nan
      | S754_infinity _ => z
      | S754_zero _ => binary_round prec emax s mp ep
      | S754_finite sz mz ez =>
          let e := Z.min ep ez in
          binary_normalize prec emax
            (cond_Zopp s (Zpos (fst (shl_align mp ep e)))
             + cond_Zopp sz (Zpos (fst (shl_align mz ez e))))
            e false
      end
  end.

Definition add (a b : Z) : Z :=
  to_bits (SFadd prec emax (of_bits a) (of_bits b)).
Definition sub (a b : Z) : Z :=
  to_bits (SFsub prec emax (of_bits a) (of_bits b)).
Definition mul (a b : Z) : Z :=
  to_bits (SFmul prec emax (of_bits a) (of_bits b)).
Definition div (a b : Z) : Z :=
  to_bits (SFdiv prec emax (of_bits a) (of_bits b)).
Definition fma (a b c : Z) : Z :=
  to_bits (SFfma (of_bits a) (of_bits b) (of_bits c)).
Definition max (a b : Z) : Z := to_bits (FPMax (of_bits a) (of_bits b)).
Definition min (a b : Z) : Z := to_bits (FPMin (of_bits a) (of_bits b)).
Definition gtb (a b : Z) : bool :=
  match SFcompare (of_bits a) (of_bits b) with
  | Some Gt => true
  | _ => false
  end.

Definition ltb (a b : Z) : bool :=
  match SFcompare (of_bits a) (of_bits b) with
  | Some Lt => true
  | _ => false
  end.

Definition is_finite (w : Z) : bool := sf_finite (of_bits w).
Definition is_nan (w : Z) : bool := sf_is_nan (of_bits w).

(** The float of an integer literal such as [88.0f], and of a decimal
    literal [num / den] whose numerator and denominator are exact in
    binary32: both correctly rounded. *)
Definition of_Z (z : Z) : Z := to_bits (binary_normalize prec emax z 0 false).
Definition decimal (num den : Z) : Z :=
  to_bits (SFdiv prec emax (binary_normalize prec emax num 0 false)
                           (binary_normalize prec emax den 0 false)).
End F32.

(** ** The intrinsics of [<arm_neon.h>] the library calls *)

Definition vaddq_f32 : float32x4_t -> float32x4_t -> float32x4_t := vec_map2 F32.add.
Definition vsubq_f32 : float32x4_t -> float32x4_t -> float32x4_t := vec_map2 F32.sub.
Definition vmulq_f32 : float32x4_t -> float32x4_t -> float32x4_t := vec_map2 F32.mul.
Definition vdivq_f32 : float32x4_t -> float32x4_t -> float32x4_t := vec_map2 F32.div.
Definition vmaxq_f32 : float32x4_t -> float32x4_t -> float32x4_t := vec_map2 F32.max.
Definition vminq_f32 : float32x4_t -> float32x4_t -> float32x4_t := vec_map2 F32.min.

(** [vfmaq_f32(a, b, c)]: [a + b * c] per lane, fused. *)
Definition vfmaq_f32 : float32x4_t -> float32x4_t -> float32x4_t -> float32x4_t :=
  vec_map3 (fun a b c => F32.fma b c a).

(** [vcgtq_f32(a, b)]: all ones where [a > b], zero elsewhere. *)
Definition vcgtq_f32 : float32x4_t -> float32x4_t -> uint32x4_t :=
  vec_map2 (fun a b => if F32.gtb a b then 2 ^ 32 - 1 else 0).

(** [vbslq_f32(mask, a, b)]: bitwise select, [(a & mask) | (b & ~mask)]. *)
Definition vbslq_f32 : uint32x4_t -> float32x4_t -> float32x4_t -> float32x4_t :=
  vec_map3 (fun mask a b => Z.lor (Z.land a mask) (Z.ldiff b mask)).

(** Across-vector reductions: pairwise, low half and high half. *)
Definition vaddvq_f32 (v : float32x4_t) : Z :=
  F32.add (F32.add (lane0 v) (lane1 v)) (F32.add (lane2 v) (lane3 v)).
Definition vmaxvq_f32 (v : float32x4_t) : Z :=
  F32.max (F32.max (lane0 v) (lane1 v)) (F32.max (lane2 v) (lane3 v)).
Definition vminvq_f32 (v : float32x4_t) : Z :=
  F32.min (F32.min (lane0 v) (lane1 v)) (F32.min (lane2 v) (lane3 v)).

(** ** neon_types.h, neon_utils.h *)

Definition NEON_ZEROS : float32x4_t := mkV4 (F32.of_Z 0) (F32.of_Z 0) (F32.of_Z 0) (F32.of_Z 0).
Definition NEON_ONES : float32x4_t := mkV4 (F32.of_Z 1) (F32.of_Z 1) (F32.of_Z 1) (F32.of_Z 1).

Definition neon_add_f32x4 (a b : float32x4_t) : float32x4_t := vaddq_f32 a b.
Definition neon_sub_f32x4 (a b : float32x4_t) : float32x4_t := vsubq_f32 a b.
Definition neon_mul_f32x4 (a b : float32x4_t) : float32x4_t := vmulq_f32 a b.
Definition neon_fma_f32x4 (a b c : float32x4_t) : float32x4_t := vfmaq_f32 c a b.
Definition neon_div_f32x4 (a b : float32x4_t) : float32x4_t := vdivq_f32 a b.

Definition neon_sum_f32x4 (vec : float32x4_t) : Z := vaddvq_f32 vec.
Definition neon_max_f32x4 (vec : float32x4_t) : Z := vmaxvq_f32 vec.
Definition neon_min_f32x4 (vec : float32x4_t) : Z := vminvq_f32 vec.

Definition neon_vmax_f32x4 (a b : float32x4_t) : float32x4_t := vmaxq_f32 a b.
Definition neon_vmin_f32x4 (a b : float32x4_t) : float32x4_t := vminq_f32 a b.

Definition neon_clamp_f32x4 (vec : float32x4_t) (min_val max_val : Z) : float32x4_t :=
  let vmin := vdupq_n_f32 min_val in
  let vmax := vdupq_n_f32 max_val in
  vminq_f32 (vmaxq_f32 vec vmin) vmax.

Definition neon_cmpgt_f32x4 (a b : float32x4_t) : uint32x4_t := vcgtq_f32 a b.

Definition neon_select_f32x4 (mask : uint32x4_t) (a b : float32x4_t) : float32x4_t :=
  vbslq_f32 mask a b.

Definition neon_broadcast_f32 (value : Z) : float32x4_t := vdupq_n_f32 value.

Definition neon_exp_f32x4 (x : float32x4_t) : float32x4_t :=
  let x := vminq_f32 x (vdupq_n_f32 (F32.of_Z 88)) in
  let x := vmaxq_f32 x (vdupq_n_f32 (F32.of_Z (-88))) in
  let c1 := vdupq_n_f32 (F32.of_Z 1) in
  let c2 := vdupq_n_f32 (F32.decimal 5 10) in
  let c3 := vdupq_n_f32 (F32.decimal 16666667 100000000) in
  let c4 := vdupq_n_f32 (F32.decimal 4166667 100000000) in
  let x2 := vmulq_f32 x x in
  let x3 := vmulq_f32 x2 x in
  let x4 := vmulq_f32 x3 x in
  let result := c1 in
  let result := vfmaq_f32 result x c1 in
  let result := vfmaq_f32 result x2 c2 in
  let result := vfmaq_f32 result x3 c3 in
  let result := vfmaq_f32 result x4 c4 in
  result.

Definition neon_dot_f32x4 (a b : float32x4_t) : Z :=
  let prod := vmulq_f32 a b in
  neon_sum_f32x4 prod.

(** One lane of [neon_exp_f32x4]: the clamp, then the polynomial. *)
Definition clamp_lane (a : Z) : Z :=
  F32.max (F32.min a (F32.of_Z 88)) (F32.of_Z (-88)).

Definition poly_lane (x : Z) : Z :=
  let c1 := F32.of_Z 1 in
  let c2 := F32.decimal 5 10 in
  let c3 := F32.decimal 16666667 100000000 in
  let c4 := F32.decimal 4166667 100000000 in
  let x2 := F32.mul x x in
  let x3 := F32.mul x2 x in
  let x4 := F32.mul x3 x in
  let result := c1 in
  let result := F32.fma x c1 result in
  let result := F32.fma x2 c2 result in
  let result := F32.fma x3 c3 result in
  let result := F32.fma x4 c4 result in
  result.

(** [88.0f] and [-88.0f] as floats: [11534336 * 2^-17]. *)
Definition sf_88 : spec_float := S754_finite false 11534336 (-17).
Definition sf_m88 : spec_float := S754_finite true 11534336 (-17).

(** Not NaN, not above 88 and not below -88. *)
Definition in_clamp_range (x : spec_float) : Prop :=
  F32.sf_is_nan x = false /\ SFcompare x sf_88 <> Some Gt /\
  SFcompare x sf_m88 <> Some Lt.

(** [f] is zero, or finite with magnitude below [2^K], a mantissa of at
    most 24 bits and an exponent of at least -149. *)
Definition finite_below (K : Z) (f : spec_float) : Prop :=
  match f with
  | S754_zero _ => True
  | S754_finite _ m e => Zpos m < 2 ^ (K - e) /\ Zpos m < 2 ^ 24 /\ -149 <= e
  | _ => False
  end.

Abbreviation lane_below K w := (finite_below K (F32.of_bits w)).

(** The ReLU of the comment on [neon_select_f32x4]:
    [mask = (x > 0); result = select(mask, x, 0)]. *)
Definition relu_via_select (x : float32x4_t) : float32x4_t :=
  let mask := neon_cmpgt_f32x4 x NEON_ZEROS in
  neon_select_f32x4 mask x NEON_ZEROS.

Definition vec_of_Z (a b c d : Z) : float32x4_t :=
  mkV4 (F32.of_Z a) (F32.of_Z b) (F32.of_Z c) (F32.of_Z d).


(** ** Concrete inputs used below *)

(** One live block of 32 bytes (8 floats) at address 4096. *)
Definition mem0 : memory := mkMem (fun _ => x00) (<[4096 := 32]> ∅).

(** Two live 16-byte aligned blocks of 84 bytes (21 floats) each; the byte
    at address [a] is [(a + a / 4096) mod 256], so the two blocks differ. *)
Definition mem1 : memory :=
  mkMem (fun a => byte_of_Z (a + a / 4096)) (<[4096 := 84]> (<[8192 := 84]> ∅)).

(** A full buffer of 8 floats owning that block. *)
Definition buf0 : AlignedBuffer := mkBuffer 4096 8 8.

(** All four lanes are 32-bit patterns. *)
Definition valid_vec (v : vec128) : Prop :=
  is_lane (lane0 v) /\ is_lane (lane1 v) /\ is_lane (lane2 v) /\ is_lane (lane3 v).

(** The spec's words for [allocate(size, alignment)]: an alignment that is
    zero or not a power of two fails with InvalidParam; otherwise the block,
    or null when the allocation fails. *)
Definition allocate_spec (sz alignment : Z) (env : option Z) (m : memory)
  : (NeonError + Z) * memory :=
  if is_pow2b alignment
  then let '(rc, p, m') := posix_memalign NULL alignment sz env m in
       (inr (if rc =? 0 then p else NULL), m')
  else (inl NEON_ERROR_INVALID_PARAM, m).

Definition is_pow2 (a : Z) : Prop := exists k, 0 <= k /\ a = 2 ^ k.

(** ** Further code of the three headers *)

(** libc [memset(p, c, n)] *)
Definition memset (p c n : Z) (m : memory) : outcome memory :=
  if in_block m p n then Ok (write_bytes m p n (fun _ => byte_of_Z c))
  else Fault OutOfBounds.

(** memory_align.h *)
Definition aligned_buffer_clear (buffer : option AlignedBuffer) (m : memory)
  : outcome (option AlignedBuffer * memory) :=
  match buffer with
  | None => Ok (None, m)
  | Some b =>
      if data b =? NULL then Ok (Some b, m)
      else
        let* m' := memset (data b) 0 (SizeT.mul (capacity b) sizeof_float) m in
        Ok (Some (mkBuffer (data b) 0 (capacity b)), m')
  end.

(** neon_types.h, [ALIGN_UP(x)] at type [size_t]:
    [((x) + NEON_ALIGNMENT - 1) & ~(NEON_ALIGNMENT - 1)]; the [int] mask
    [~15] is converted to [size_t]. *)
Definition ALIGN_UP (x : Z) : Z :=
  Z.land (SizeT.sub (SizeT.add x NEON_ALIGNMENT) 1)
         (SizeT.wrap (Z.lnot (NEON_ALIGNMENT - 1))).

(** [vld1q_dup_f32(p)]: one float into all four lanes. *)
Definition vld1q_dup_f32 (m : memory) (p : Z) : outcome float32x4_t :=
  if in_block m p 4 then Ok (vdupq_n_f32 (read_lane m p))
  else Fault OutOfBounds.

(** neon_utils.h: loads and stores *)
Definition neon_load_f32x4 (m : memory) (ptr : Z) : outcome float32x4_t :=
  vld1q_f32 m ptr.

Definition neon_store_f32x4 (m : memory) (ptr : Z) (vec : float32x4_t)
  : outcome memory :=
  vst1q_f32 m ptr vec.

Definition neon_load_broadcast_f32 (m : memory) (ptr : Z) : outcome float32x4_t :=
  vld1q_dup_f32 m ptr.

(** The place of a float in the order [SFcompare] decides: its class
    (negative infinity, negative, zero, positive, positive infinity), then
    exponent and mantissa. *)
Definition sf_key (f : spec_float) : Z * Z * Z :=
  match f with
  | S754_infinity true => (-2, 0, 0)
  | S754_finite true m e => (-1, - e, - Zpos m)
  | S754_zero _ => (0, 0, 0)
  | S754_finite false m e => (1, e, Zpos m)
  | S754_infinity false => (2, 0, 0)
  | S754_nan => (3, 0, 0)
  end.

Definition key_lt (a b : Z * Z * Z) : Prop :=
  let '(a1, a2, a3) := a in
  let '(b1, b2, b3) := b in
  a1 < b1 \/ (a1 = b1 /\ (a2 < b2 \/ (a2 = b2 /\ a3 < b3))).

(** No lane of the vector is NaN. *)
Definition no_nan (v : vec128) : Prop :=
  F32.is_nan (lane0 v) = false /\ F32.is_nan (lane1 v) = false /\
  F32.is_nan (lane2 v) = false /\ F32.is_nan (lane3 v) = false.

(** Decoding the encoding of [f] gives [f] back: [f] is a binary32 value
    in the form [F32.of_bits] produces. *)
Definition stable (f : spec_float) : Prop := F32.of_bits (F32.to_bits f) = f.

(** * Proofs *)

(** ** Machine integers *)

Lemma wrap_small z : SizeT.in_range z -> SizeT.wrap z = z.
Proof. intros H. apply Z.mod_small. exact H. Qed.

Lemma wrap_range z : SizeT.in_range (SizeT.wrap z).
Proof. apply Z.mod_pos_bound. reflexivity. Qed.

Lemma modulus_eq : SizeT.modulus = 18446744073709551616.
Proof. reflexivity. Qed.

Lemma pow2_land_pred k : 0 <= k -> Z.land (2 ^ k) (2 ^ k - 1) = 0.
Proof.
  intros Hk.
  replace (2 ^ k - 1) with (Z.ones k) by (rewrite Z.ones_equiv; lia).
  rewrite Z.land_ones by assumption.
  apply Z.mod_same. apply Z.pow_nonzero; lia.
Qed.

Lemma land_pred_pow2 a : 0 < a -> Z.land a (a - 1) = 0 -> is_pow2 a.
Proof.
  intros Ha Hland.
  exists (Z.log2 a). split; [apply Z.log2_nonneg|].
  destruct (Z.eq_dec a (2 ^ Z.log2 a)) as [E|NE]; [exact E|exfalso].
  pose proof (Z.log2_spec a Ha) as [Hlo Hhi].
  assert (Hpred : Z.log2 (a - 1) = Z.log2 a).
  { apply Z.log2_unique; [apply Z.log2_nonneg|]. lia. }
  assert (Hb1 : Z.testbit a (Z.log2 a) = true) by (apply Z.bit_log2; lia).
  assert (Hb2 : Z.testbit (a - 1) (Z.log2 a) = true).
  { rewrite <- Hpred. apply Z.bit_log2.
    assert (0 < 2 ^ Z.log2 a) by (apply Z.pow_pos_nonneg; [lia|apply Z.log2_nonneg]).
    lia. }
  assert (Hb : Z.testbit (Z.land a (a - 1)) (Z.log2 a) = true).
  { rewrite Z.land_spec, Hb1, Hb2. reflexivity. }
  rewrite Hland, Z.bits_0 in Hb. discriminate.
Qed.

(** ** Allocation *)

Lemma aligned_malloc_invalid sz a env m :
  SizeT.in_range a -> a = 0 \/ ~ is_pow2 a ->
  aligned_malloc sz a env m = (NULL, m).
Proof.
  intros Hr Hbad. unfold aligned_malloc.
  destruct (Z.eqb_spec a 0) as [->|Hnz]; [reflexivity|].
  destruct Hbad as [->|Hnp]; [contradiction|].
  cbn [orb].
  destruct (Z.eqb_spec (Z.land a (SizeT.sub a 1)) 0) as [E|NE]; [|reflexivity].
  exfalso. apply Hnp.
  unfold SizeT.sub in E. rewrite wrap_small in E
    by (unfold SizeT.in_range in *; lia).
  apply land_pred_pow2; [unfold SizeT.in_range in Hr; lia | exact E].
Qed.

Lemma aligned_malloc_pow2 sz k env m :
  0 <= k < 64 ->
  aligned_malloc sz (2 ^ k) env m =
    let '(rc, p, m') := posix_memalign NULL (2 ^ k) sz env m in
    if negb (rc =? 0) then (NULL, m') else (p, m').
Proof.
  intros Hk. unfold aligned_malloc.
  assert (Hpos : 0 < 2 ^ k) by (apply Z.pow_pos_nonneg; lia).
  assert (Hlt : 2 ^ k < 2 ^ 64) by (apply Z.pow_lt_mono_r; lia).
  destruct (Z.eqb_spec (2 ^ k) 0) as [E|_]; [lia|].
  unfold SizeT.sub. rewrite wrap_small
    by (unfold SizeT.in_range, SizeT.modulus; lia).
  rewrite pow2_land_pred by lia. reflexivity.
Qed.

(** What [neon_malloc] can return: null with the memory untouched, or the
    fresh 16-byte aligned block the environment handed out. *)
Lemma neon_malloc_cases sz env m :
  neon_malloc sz env m = (NULL, m) \/
  exists p, env = Some p /\ fresh_block m p sz NEON_ALIGNMENT = true /\
            neon_malloc sz env m = (p, mkMem (contents m) (<[p := sz]> (blocks m))).
Proof.
  unfold neon_malloc, aligned_malloc, posix_memalign.
  change (NEON_ALIGNMENT =? 0) with false.
  change (Z.land NEON_ALIGNMENT (SizeT.sub NEON_ALIGNMENT 1) =? 0) with true.
  change (is_pow2b NEON_ALIGNMENT && (NEON_ALIGNMENT mod sizeof_pointer =? 0)) with true.
  cbn [orb negb].
  destruct env as [p|]; [|left; reflexivity].
  destruct (fresh_block m p sz NEON_ALIGNMENT) eqn:Hf; [|left; reflexivity].
  right. exists p. auto.
Qed.

Lemma fresh_block_spec m p n a :
  fresh_block m p n a = true ->
  0 < p /\ p + n <= SizeT.modulus /\ blocks m !! p = None /\
  forall b sz, blocks m !! b = Some sz -> p + n <= b \/ b + sz <= p.
Proof.
  unfold fresh_block. rewrite !andb_true_iff.
  intros [[[[H1 H2] H3] H4] H5].
  apply bool_decide_eq_true in H4, H5.
  repeat split; [lia | lia | exact H4 |].
  intros b sz Hb. exact (H5 b sz Hb).
Qed.

Lemma in_block_spec m p n :
  in_block m p n = true <->
  exists b sz, blocks m !! b = Some sz /\ b <= p /\ p + n <= b + sz.
Proof.
  unfold in_block. rewrite bool_decide_eq_true. apply map_Exists_lookup.
Qed.

(** C9 (as stated): at alignment 3 the spec's [allocate] fails with
    InvalidParam, while [aligned_malloc] returns the null pointer, the very
    value it returns when a well-aligned request finds no memory. *)
Lemma aligned_malloc_no_invalid_param :
  fst (allocate_spec 64 3 (Some 8192) mem0) = inl NEON_ERROR_INVALID_PARAM /\
  fst (aligned_malloc 64 3 (Some 8192) mem0) = NULL /\
  aligned_malloc 64 3 (Some 8192) mem0 = aligned_malloc 64 16 None mem0.
Proof. repeat split. Qed.

(** C9 (amended): for every alignment that is zero or not a power of two
    [aligned_malloc] returns the null pointer and leaves the memory alone;
    for a power of two it returns null exactly when [posix_memalign]
    reports an error, and the block it stored otherwise.  No error code is
    produced on either path. *)
Theorem aligned_malloc_null_on_failure :
  (forall sz a env m,
      SizeT.in_range a -> a = 0 \/ ~ is_pow2 a ->
      aligned_malloc sz a env m = (NULL, m)) /\
  (forall sz k env m,
      0 <= k < 64 ->
      let '(rc, p, m') := posix_memalign NULL (2 ^ k) sz env m in
      (rc <> 0 -> aligned_malloc sz (2 ^ k) env m = (NULL, m')) /\
      (rc = 0 -> aligned_malloc sz (2 ^ k) env m = (p, m'))).
Proof.
  split.
  - intros. apply aligned_malloc_invalid; assumption.
  - intros sz k env m Hk.
    pose proof (aligned_malloc_pow2 sz k env m Hk) as E.
    destruct (posix_memalign NULL (2 ^ k) sz env m) as [[rc p] m'].
    rewrite E. split; intros Hrc.
    + destruct (Z.eqb_spec rc 0); [contradiction|reflexivity].
    + subst rc. reflexivity.
Qed.

Lemma aligned_malloc_null_on_failure_witness :
  aligned_malloc 64 3 (Some 8192) mem0 = (NULL, mem0) /\
  aligned_malloc 64 (2 ^ 4) None mem0 = (NULL, mem0) /\
  fst (aligned_malloc 64 (2 ^ 4) (Some 8192) mem0) = 8192.
Proof.
  destruct aligned_malloc_null_on_failure as [Hbad Hpow].
  split; [|split].
  - apply Hbad; [unfold SizeT.in_range; rewrite modulus_eq; lia|].
    right. intros [k [Hk E]].
    assert (k < 2) by (apply (Z.pow_lt_mono_r_iff 2); lia).
    assert (C : k = 0 \/ k = 1) by lia.
    destruct C as [-> | ->]; discriminate E.
  - specialize (Hpow 64 4 None mem0 ltac:(lia)).
    cbv beta iota delta [posix_memalign] in Hpow.
    change (is_pow2b (2 ^ 4) && (2 ^ 4 mod sizeof_pointer =? 0)) with true in Hpow.
    cbn [negb] in Hpow. destruct Hpow as [H _]. apply H. discriminate.
  - specialize (Hpow 64 4 (Some 8192) mem0 ltac:(lia)).
    cbv beta iota delta [posix_memalign] in Hpow.
    change (is_pow2b (2 ^ 4) && (2 ^ 4 mod sizeof_pointer =? 0)) with true in Hpow.
    change (fresh_block mem0 8192 64 (2 ^ 4)) with true in Hpow.
    cbn [negb] in Hpow. destruct Hpow as [_ H]. rewrite H; reflexivity.
Defined.

(** ** Memory writes *)

Lemma write_bytes_in m p n f a :
  p <= a < p + n -> contents (write_bytes m p n f) a = f (a - p).
Proof.
  intros H. unfold write_bytes. cbn [contents].
  destruct (Z.leb_spec p a); [|lia].
  destruct (Z.ltb_spec a (p + n)); [|lia]. reflexivity.
Qed.

Lemma write_bytes_out m p n f a :
  ~ (p <= a < p + n) -> contents (write_bytes m p n f) a = contents m a.
Proof.
  intros H. unfold write_bytes. cbn [contents].
  destruct (Z.leb_spec p a); [|reflexivity].
  destruct (Z.ltb_spec a (p + n)); [lia|reflexivity].
Qed.

Lemma write_bytes_blocks m p n f : blocks (write_bytes m p n f) = blocks m.
Proof. reflexivity. Qed.

(** ** Aligned buffers *)

Lemma destroy_keeps_data b m sz :
  data b <> NULL -> blocks m !! data b = Some sz ->
  aligned_buffer_destroy (Some b) m =
    Ok (Some (mkBuffer (data b) 0 0),
        mkMem (contents m) (delete (data b) (blocks m))).
Proof.
  intros Hnz Hlive. unfold aligned_buffer_destroy, neon_free, aligned_free, free.
  destruct (Z.eqb_spec (data b) NULL) as [E|_]; [contradiction|].
  cbn [negb obind]. rewrite Hlive. reflexivity.
Qed.

(** After one destroy of a buffer that owns a live block the data handle
    still holds the released address, so a second destroy frees it again. *)
Lemma destroy_twice_faults b m sz :
  data b <> NULL -> blocks m !! data b = Some sz ->
  (let* '(b1, m1) := aligned_buffer_destroy (Some b) m in
   aligned_buffer_destroy b1 m1) = Fault InvalidFree.
Proof.
  intros Hnz Hlive. rewrite (destroy_keeps_data b m sz Hnz Hlive).
  cbn [obind]. unfold aligned_buffer_destroy, neon_free, aligned_free, free.
  cbn [data blocks].
  destruct (Z.eqb_spec (data b) NULL) as [E|_]; [contradiction|].
  cbn [negb obind]. rewrite lookup_delete_eq. reflexivity.
Qed.

(** C1: on the buffer [buf0] that owns the live block at 4096, the first
    [aligned_buffer_destroy] releases the block, zeroes size and capacity
    and leaves [data] equal to 4096; the second call frees 4096 again. *)
Theorem destroy_twice_double_free :
  (exists m1,
      aligned_buffer_destroy (Some buf0) mem0 = Ok (Some (mkBuffer 4096 0 0), m1) /\
      blocks m1 !! 4096 = None) /\
  (let* '(b1, m1) := aligned_buffer_destroy (Some buf0) mem0 in
   aligned_buffer_destroy b1 m1) = Fault InvalidFree.
Proof.
  split.
  - eexists. split; [reflexivity|]. vm_compute. reflexivity.
  - apply (destroy_twice_faults buf0 mem0 32); [discriminate | reflexivity].
Qed.

Lemma resize_null new_capacity env m :
  aligned_buffer_resize None new_capacity env m =
    Ok (NEON_ERROR_NULL_POINTER, None, m).
Proof. reflexivity. Qed.

Lemma resize_noop b new_capacity env m :
  new_capacity <= capacity b ->
  aligned_buffer_resize (Some b) new_capacity env m = Ok (NEON_SUCCESS, Some b, m).
Proof.
  intros H. unfold aligned_buffer_resize.
  destruct (Z.leb_spec new_capacity (capacity b)); [reflexivity | lia].
Qed.

Lemma resize_oom b new_capacity env m :
  capacity b < new_capacity ->
  fst (neon_malloc (SizeT.mul new_capacity sizeof_float) env m) = NULL ->
  aligned_buffer_resize (Some b) new_capacity env m =
    Ok (NEON_ERROR_OUT_OF_MEMORY, Some b, m).
Proof.
  intros Hgt Hnull. unfold aligned_buffer_resize.
  destruct (Z.leb_spec new_capacity (capacity b)); [lia|].
  destruct (neon_malloc_cases (SizeT.mul new_capacity sizeof_float) env m)
    as [E | (p & _ & Hf & E)]; rewrite E in *; cbn [fst] in Hnull.
  - reflexivity.
  - apply fresh_block_spec in Hf. unfold NULL in Hnull. lia.
Qed.

(** Growth of a well-formed buffer when the byte size does not wrap. *)
Lemma resize_grow b new_capacity env m :
  wf_buffer m b ->
  capacity b < new_capacity ->
  sizeof_float * new_capacity < SizeT.modulus ->
  fst (neon_malloc (SizeT.mul new_capacity sizeof_float) env m) <> NULL ->
  exists p m',
    aligned_buffer_resize (Some b) new_capacity env m =
      Ok (NEON_SUCCESS, Some (mkBuffer p (size b) new_capacity), m') /\
    p <> NULL /\
    blocks m' !! p = Some (sizeof_float * new_capacity) /\
    (data b <> NULL -> blocks m' !! data b = None) /\
    forall j, 0 <= j < sizeof_float * size b ->
              contents m' (p + j) = contents m (data b + j).
Proof.
  intros (Hsz & Hcap & Hnull & Hlive) Hgt Hno Halloc.
  unfold sizeof_float in *.
  assert (Hmul : SizeT.mul new_capacity 4 = 4 * new_capacity).
  { unfold SizeT.mul. rewrite wrap_small; [lia|]. unfold SizeT.in_range. lia. }
  assert (Hmul' : SizeT.mul (size b) 4 = 4 * size b).
  { unfold SizeT.mul. rewrite wrap_small; [lia|]. unfold SizeT.in_range. lia. }
  unfold aligned_buffer_resize.
  destruct (Z.leb_spec new_capacity (capacity b)); [lia|].
  change sizeof_float with 4.
  destruct (neon_malloc_cases (SizeT.mul new_capacity 4) env m)
    as [E | (p & _ & Hf & E)]; rewrite E in *; cbn [fst] in Halloc;
    [contradiction|].
  apply fresh_block_spec in Hf. destruct Hf as (Hp & _ & Hfree & Hdisj).
  destruct (Z.eqb_spec p NULL) as [Ep|_]; [unfold NULL in Ep; lia|].
  rewrite Hmul in *. rewrite Hmul'.
  destruct (Z.eqb_spec (data b) NULL) as [Ed|Hd]; cbn [negb obind].
  - exists p. eexists. split; [reflexivity|]. cbn [blocks contents].
    split; [unfold NULL; lia|]. split; [apply lookup_insert_eq|].
    split; [contradiction|]. specialize (Hnull Ed). intros j Hj. lia.
  - specialize (Hlive Hd).
    assert (Hne : p <> data b) by (intros ->; congruence).
    destruct (Hdisj _ _ Hlive) as [Hd1|Hd1].
    all: unfold memcpy.
    all: assert (Hin1 : in_block (mkMem (contents m) (<[p:=4 * new_capacity]> (blocks m)))
                        p (4 * size b) = true)
        by (apply in_block_spec; exists p, (4 * new_capacity); cbn [blocks];
            rewrite lookup_insert_eq; split; [reflexivity|lia]).
    all: assert (Hin2 : in_block (mkMem (contents m) (<[p:=4 * new_capacity]> (blocks m)))
                        (data b) (4 * size b) = true)
        by (apply in_block_spec; exists (data b), (4 * capacity b); cbn [blocks];
            rewrite lookup_insert_ne by exact Hne; split; [exact Hlive|lia]).
    all: rewrite Hin1, Hin2; cbn [andb negb].
    all: assert (Hdj : ranges_disjoint p (data b) (4 * size b) = true)
        by (unfold ranges_disjoint; apply orb_true_iff;
            rewrite !Z.leb_le; lia).
    all: rewrite Hdj; cbn [negb obind].
    all: unfold neon_free, aligned_free, free; rewrite write_bytes_blocks; cbn [blocks].
    all: destruct (Z.eqb_spec (data b) NULL) as [|_]; [contradiction|].
    all: rewrite lookup_insert_ne by exact Hne; rewrite Hlive.
    all: exists p; eexists; split; [reflexivity|]; cbn [blocks contents].
    all: split; [unfold NULL; lia|].
    all: split; [rewrite lookup_delete_ne by congruence; apply lookup_insert_eq|].
    all: split; [intros _; apply lookup_delete_eq|].
    all: intros j Hj.
    all: rewrite write_bytes_in by lia.
    all: f_equal; lia.
Qed.

Lemma wf_buf0 : wf_buffer mem0 buf0.
Proof.
  unfold wf_buffer, buf0, sizeof_float, NULL. cbn [data size capacity].
  rewrite modulus_eq.
  split; [lia|]. split; [lia|]. split; [discriminate|]. intros _. reflexivity.
Defined.

(** C2 (as stated): [buf0] is a well-formed full buffer of 8 floats; the
    request for [2^62 + 1] elements exceeds its capacity and the allocation
    (of [(2^62 + 1) * 4 mod 2^64 = 4] bytes) succeeds, yet the copy of the
    32 old bytes does not fit the new block. *)
Lemma resize_overflow_counterexample :
  wf_buffer mem0 buf0 /\
  capacity buf0 < 2 ^ 62 + 1 /\
  SizeT.in_range (2 ^ 62 + 1) /\
  neon_malloc (SizeT.mul (2 ^ 62 + 1) sizeof_float) (Some 8192) mem0 =
    (8192, mkMem (contents mem0) (<[8192 := 4]> (blocks mem0))) /\
  aligned_buffer_resize (Some buf0) (2 ^ 62 + 1) (Some 8192) mem0 =
    Fault OutOfBounds.
Proof.
  split; [exact wf_buf0|].
  split; [reflexivity|].
  split; [unfold SizeT.in_range; rewrite modulus_eq; lia|].
  split; reflexivity.
Qed.

(** C2 (amended): a request not above the capacity returns Success and
    changes neither the buffer nor the memory; for a buffer that satisfies
    its invariant, a larger request whose byte size [4 * newCapacity] fits
    [size_t], when the allocation succeeds, returns Success with
    [capacity = newCapacity], [size] unchanged and [data] a live block of
    [4 * newCapacity] bytes whose first [4 * size] bytes are the old ones. *)
Theorem resize_contract :
  (forall m b new_capacity env,
      new_capacity <= capacity b ->
      aligned_buffer_resize (Some b) new_capacity env m =
        Ok (NEON_SUCCESS, Some b, m)) /\
  (forall m b new_capacity env,
      wf_buffer m b ->
      capacity b < new_capacity ->
      sizeof_float * new_capacity < SizeT.modulus ->
      fst (neon_malloc (SizeT.mul new_capacity sizeof_float) env m) <> NULL ->
      exists p m',
        aligned_buffer_resize (Some b) new_capacity env m =
          Ok (NEON_SUCCESS, Some (mkBuffer p (size b) new_capacity), m') /\
        p <> NULL /\
        blocks m' !! p = Some (sizeof_float * new_capacity) /\
        forall j, 0 <= j < sizeof_float * size b ->
                  contents m' (p + j) = contents m (data b + j)).
Proof.
  split.
  - intros m b new_capacity env. apply resize_noop.
  - intros m b new_capacity env Hwf Hgt Hno Halloc.
    destruct (resize_grow b new_capacity env m Hwf Hgt Hno Halloc)
      as (p & m' & E & Hp & Hblk & _ & Hbytes).
    exists p, m'. auto.
Qed.

Lemma resize_contract_witness :
  aligned_buffer_resize (Some buf0) 8 (Some 8192) mem0 =
    Ok (NEON_SUCCESS, Some buf0, mem0) /\
  exists p m',
    aligned_buffer_resize (Some buf0) 16 (Some 8192) mem0 =
      Ok (NEON_SUCCESS, Some (mkBuffer p (size buf0) 16), m') /\
    p <> NULL /\
    blocks m' !! p = Some (sizeof_float * 16) /\
    forall j, 0 <= j < sizeof_float * size buf0 ->
              contents m' (p + j) = contents mem0 (data buf0 + j).
Proof.
  split.
  - apply (proj1 resize_contract mem0 buf0 8 (Some 8192)). discriminate.
  - apply (proj2 resize_contract mem0 buf0 16 (Some 8192) wf_buf0).
    + reflexivity.
    + reflexivity.
    + discriminate.
Defined.

(** C3: a null buffer argument gives NullPointer; a failed allocation gives
    OutOfMemory and the buffer (data, size, capacity) and the memory are
    exactly what they were. *)
Theorem resize_errors :
  (forall new_capacity env m,
      aligned_buffer_resize None new_capacity env m =
        Ok (NEON_ERROR_NULL_POINTER, None, m)) /\
  (forall b new_capacity env m,
      capacity b < new_capacity ->
      fst (neon_malloc (SizeT.mul new_capacity sizeof_float) env m) = NULL ->
      aligned_buffer_resize (Some b) new_capacity env m =
        Ok (NEON_ERROR_OUT_OF_MEMORY, Some b, m)).
Proof.
  split.
  - apply resize_null.
  - apply resize_oom.
Qed.

Lemma resize_errors_witness :
  aligned_buffer_resize (Some buf0) 16 None mem0 =
    Ok (NEON_ERROR_OUT_OF_MEMORY, Some buf0, mem0).
Proof.
  apply (proj2 resize_errors buf0 16 None mem0); reflexivity.
Defined.

(** C10: whenever [aligned_buffer_resize] returns, the buffer's [size] is
    the one it had before the call; and on a buffer that satisfies its
    invariant, with a request whose byte size fits [size_t], it does
    return. *)
Theorem resize_preserves_size : forall b new_capacity env m,
  (forall code b' m',
      aligned_buffer_resize (Some b) new_capacity env m = Ok (code, b', m') ->
      exists b2, b' = Some b2 /\ size b2 = size b) /\
  (wf_buffer m b -> sizeof_float * new_capacity < SizeT.modulus ->
   exists code b2 m',
     aligned_buffer_resize (Some b) new_capacity env m = Ok (code, Some b2, m') /\
     size b2 = size b).
Proof.
  intros b new_capacity env m. split.
  - intros code b' m'. unfold aligned_buffer_resize.
    destruct (new_capacity <=? capacity b).
    { intros [= <- <- <-]. eauto. }
    destruct (neon_malloc _ env m) as [new_data m1].
    destruct (new_data =? NULL).
    { intros [= <- <- <-]. eauto. }
    destruct (negb (data b =? NULL)).
    + destruct (memcpy new_data (data b) _ m1) as [mc|]; cbn [obind];
        [|discriminate].
      destruct (neon_free (data b) mc) as [mf|]; cbn [obind]; [|discriminate].
      intros [= <- <- <-]. eauto.
    + cbn [obind]. intros [= <- <- <-]. eauto.
  - intros Hwf Hno.
    destruct (Z.le_gt_cases new_capacity (capacity b)) as [Hle|Hgt].
    { rewrite resize_noop by exact Hle. eauto. }
    destruct (Z.eq_dec
                (fst (neon_malloc (SizeT.mul new_capacity sizeof_float) env m))
                NULL) as [E|NE].
    { rewrite resize_oom by assumption. eauto. }
    destruct (resize_grow b new_capacity env m Hwf Hgt Hno NE)
      as (p & m' & E & _).
    rewrite E. eauto.
Qed.

Lemma resize_preserves_size_witness :
  exists code b2 m',
    aligned_buffer_resize (Some buf0) 16 (Some 8192) mem0 = Ok (code, Some b2, m') /\
    size b2 = size buf0.
Proof.
  apply (proj2 (resize_preserves_size buf0 16 (Some 8192) mem0)).
  - exact wf_buf0.
  - reflexivity.
Defined.

(** ** Bytes and lanes *)

Lemma Z_of_byte_range b : 0 <= Z_of_byte b < 256.
Proof.
  unfold Z_of_byte. pose proof (Byte.to_N_bounded b) as H.
  split; [apply N2Z.is_nonneg|].
  apply N2Z.inj_le in H. change (Z.of_N 255) with 255 in H. lia.
Qed.

Lemma byte_of_Z_small z :
  0 <= z < 256 -> Z_of_byte (byte_of_Z z) = z.
Proof.
  intros Hz. unfold byte_of_Z, Z_of_byte. rewrite Z.mod_small by exact Hz.
  destruct (Byte.of_N (Z.to_N z)) as [b|] eqn:E.
  - apply Byte.to_of_N in E. rewrite E. apply Z2N.id. lia.
  - apply Byte.of_N_None_iff in E. apply N2Z.inj_lt in E.
    rewrite Z2N.id in E by lia. change (Z.of_N 255) with 255 in E. lia.
Qed.

Lemma byte_of_Z_of_byte b : byte_of_Z (Z_of_byte b) = b.
Proof.
  pose proof (Z_of_byte_range b) as Hr.
  unfold byte_of_Z. rewrite Z.mod_small by exact Hr.
  unfold Z_of_byte. rewrite N2Z.id, Byte.of_to_N. reflexivity.
Qed.

Lemma byte_of_Z_congr z z' : z mod 256 = z' mod 256 -> byte_of_Z z = byte_of_Z z'.
Proof. unfold byte_of_Z. intros ->. reflexivity. Qed.

Lemma lane_byte_congr v k b :
  (v / 2 ^ (8 * k)) mod 256 = Z_of_byte b -> lane_byte v k = b.
Proof.
  intros H. unfold lane_byte. rewrite <- (byte_of_Z_of_byte b).
  apply byte_of_Z_congr. rewrite H.
  symmetry. apply Z.mod_small. apply Z_of_byte_range.
Qed.

Lemma lane_byte_of_bytes b0 b1 b2 b3 :
  lane_byte (lane_of_bytes b0 b1 b2 b3) 0 = b0 /\
  lane_byte (lane_of_bytes b0 b1 b2 b3) 1 = b1 /\
  lane_byte (lane_of_bytes b0 b1 b2 b3) 2 = b2 /\
  lane_byte (lane_of_bytes b0 b1 b2 b3) 3 = b3.
Proof.
  pose proof (Z_of_byte_range b0). pose proof (Z_of_byte_range b1).
  pose proof (Z_of_byte_range b2). pose proof (Z_of_byte_range b3).
  unfold lane_of_bytes.
  change (2 ^ 8) with 256. change (2 ^ 16) with 65536.
  change (2 ^ 24) with 16777216.
  repeat split; apply lane_byte_congr.
  - change (2 ^ (8 * 0)) with 1. Z.div_mod_to_equations. lia.
  - change (2 ^ (8 * 1)) with 256. Z.div_mod_to_equations. lia.
  - change (2 ^ (8 * 2)) with 65536. Z.div_mod_to_equations. lia.
  - change (2 ^ (8 * 3)) with 16777216. Z.div_mod_to_equations. lia.
Qed.

Lemma lane_of_bytes_range b0 b1 b2 b3 : is_lane (lane_of_bytes b0 b1 b2 b3).
Proof.
  pose proof (Z_of_byte_range b0). pose proof (Z_of_byte_range b1).
  pose proof (Z_of_byte_range b2). pose proof (Z_of_byte_range b3).
  unfold is_lane, lane_of_bytes. lia.
Qed.

Lemma lane_of_lane_bytes v :
  is_lane v ->
  lane_of_bytes (lane_byte v 0) (lane_byte v 1) (lane_byte v 2) (lane_byte v 3) = v.
Proof.
  intros Hv. unfold is_lane in Hv. unfold lane_of_bytes, lane_byte.
  unfold byte_of_Z at 1 2 3 4.
  assert (E : forall z, Z_of_byte (byte_of_Z z) = z mod 256).
  { intros z. rewrite <- (byte_of_Z_small (z mod 256)).
    - f_equal. apply byte_of_Z_congr. symmetry. apply Z.mod_mod. lia.
    - apply Z.mod_pos_bound. lia. }
  fold (byte_of_Z (v / 2 ^ (8 * 0))). fold (byte_of_Z (v / 2 ^ (8 * 1))).
  fold (byte_of_Z (v / 2 ^ (8 * 2))). fold (byte_of_Z (v / 2 ^ (8 * 3))).
  rewrite !E.
  change (2 ^ (8 * 0)) with 1. change (2 ^ (8 * 1)) with 256.
  change (2 ^ (8 * 2)) with 65536. change (2 ^ (8 * 3)) with 16777216.
  change (2 ^ 8) with 256. change (2 ^ 16) with 65536.
  change (2 ^ 24) with 16777216. change (2 ^ 32) with 4294967296 in Hv.
  Z.div_mod_to_equations. lia.
Qed.

(** ** Checked accesses *)

Lemma in_block_sub m p n c w :
  in_block m p n = true -> 0 <= c -> c + w <= n ->
  in_block m (p + c) w = true.
Proof.
  rewrite !in_block_spec. intros (b & sz & Hb & H1 & H2) Hc Hw.
  exists b, sz. split; [exact Hb|]. lia.
Qed.

Lemma in_block_same_blocks m m' p n :
  blocks m' = blocks m -> in_block m' p n = in_block m p n.
Proof. unfold in_block. intros ->. reflexivity. Qed.

Lemma vec_lane_bytes (m : memory) p k :
  0 <= k < 16 ->
  lane_byte
    (vec_lane (mkV4 (read_lane m p) (read_lane m (p + 4))
                    (read_lane m (p + 8)) (read_lane m (p + 12))) (k / 4))
    (k mod 4) = contents m (p + k).
Proof.
  intros Hk. unfold read_lane.
  assert (C : k = 0 \/ k = 1 \/ k = 2 \/ k = 3 \/ k = 4 \/ k = 5 \/ k = 6 \/
              k = 7 \/ k = 8 \/ k = 9 \/ k = 10 \/ k = 11 \/ k = 12 \/
              k = 13 \/ k = 14 \/ k = 15) by lia.
  repeat (destruct C as [-> | C]); try subst k.
  all: match goal with
       | |- context [vec_lane _ (?a / 4)] =>
           let q := eval vm_compute in (a / 4) in
           let r := eval vm_compute in (a mod 4) in
           change (a / 4) with q; change (a mod 4) with r
       end.
  all: unfold vec_lane; cbn [Z.eqb Pos.eqb lane0 lane1 lane2 lane3].
  all: match goal with
       | |- lane_byte (lane_of_bytes ?a ?b ?c ?d) _ = _ =>
           destruct (lane_byte_of_bytes a b c d) as (E0 & E1 & E2 & E3)
       end.
  all: match goal with
       | |- lane_byte _ 0 = _ => rewrite E0
       | |- lane_byte _ 1 = _ => rewrite E1
       | |- lane_byte _ 2 = _ => rewrite E2
       | |- lane_byte _ 3 = _ => rewrite E3
       end.
  all: f_equal; lia.
Qed.

Lemma lane_bytes_of_read (m : memory) p k :
  0 <= k < 4 -> lane_byte (read_lane m p) k = contents m (p + k).
Proof.
  intros Hk. unfold read_lane.
  destruct (lane_byte_of_bytes (contents m p) (contents m (p + 1))
              (contents m (p + 2)) (contents m (p + 3))) as (E0 & E1 & E2 & E3).
  assert (C : k = 0 \/ k = 1 \/ k = 2 \/ k = 3) by lia.
  destruct C as [-> | [-> | [-> | ->]]]; rewrite ?Z.add_0_r; assumption.
Qed.

(** ** Loops *)

Lemma for_loop_inv (P : Z -> memory -> Prop) (mu : Z -> nat) cond step body :
  (forall i m, P i m -> cond i = true ->
     exists m', body i m = Ok m' /\ P (step i) m' /\ (mu (step i) < mu i)%nat) ->
  forall fuel i m,
    P i m -> (mu i < fuel)%nat ->
    exists i' m', for_loop fuel cond step body i m = Ok (i', m') /\
                  P i' m' /\ cond i' = false.
Proof.
  intros Hbody. induction fuel as [|fuel IH]; intros i m HP Hfuel; [lia|].
  cbn [for_loop]. destruct (cond i) eqn:Hc.
  - destruct (Hbody i m HP Hc) as (m' & -> & HP' & Hmu). cbn [obind].
    apply IH; [exact HP'|lia].
  - exists i, m. auto.
Qed.

(** ** Bulk writes

    Both bulk operations write, front to back, the bytes [g 0], [g 1], ...
    to [dst].  [written c mi] says that [mi] is the initial memory with the
    first [c] of those bytes in place. *)

Section BulkWrite.
Variables (m : memory) (dst n : Z) (g : Z -> byte).
Hypothesis Hspan : valid_span m dst n.

Lemma written_0 : written m dst g 0 m.
Proof.
  split; [reflexivity|]. intros a. rewrite write_bytes_out by lia. reflexivity.
Qed.

Lemma written_step c w mi f :
  written m dst g c mi -> 0 <= c -> 0 <= w ->
  (forall k, 0 <= k < w -> f k = g (c + k)) ->
  written m dst g (c + w) (write_bytes mi (dst + c) w f).
Proof.
  intros [Hb Hc] Hc0 Hw Hf. split; [rewrite write_bytes_blocks; exact Hb|].
  intros a.
  destruct (Z_le_dec (dst + c) a) as [H1|H1];
    [destruct (Z_lt_dec a (dst + c + w)) as [H2|H2]|].
  - rewrite write_bytes_in by lia.
    rewrite (write_bytes_in m dst (c + w)) by lia.
    rewrite Hf by lia. f_equal. lia.
  - rewrite write_bytes_out by lia. rewrite Hc.
    rewrite (write_bytes_out m dst (c + w)) by lia.
    rewrite write_bytes_out by lia. reflexivity.
  - rewrite write_bytes_out by lia. rewrite Hc.
    destruct (Z_le_dec dst a) as [H3|H3].
    + rewrite !write_bytes_in by lia. reflexivity.
    + rewrite !write_bytes_out by lia. reflexivity.
Qed.

Lemma written_in_block c w mi :
  written m dst g c mi -> 0 <= c -> c + w <= sizeof_float * n ->
  in_block mi (dst + c) w = true.
Proof.
  intros [Hb _] Hc Hw. rewrite (in_block_same_blocks m mi) by exact Hb.
  destruct Hspan as (_ & _ & _ & Hin). eapply in_block_sub; eauto.
Qed.

Lemma vst_step c p mi v :
  p = dst + c ->
  written m dst g c mi -> 0 <= c -> c + 16 <= sizeof_float * n ->
  (forall k, 0 <= k < 16 ->
             lane_byte (vec_lane v (k / 4)) (k mod 4) = g (c + k)) ->
  exists m', vst1q_f32 mi p v = Ok m' /\ written m dst g (c + 16) m'.
Proof.
  intros -> Hw Hc Hn Hv. unfold vst1q_f32.
  rewrite (written_in_block c 16 mi Hw Hc Hn).
  eexists. split; [reflexivity|].
  apply written_step; [exact Hw | exact Hc | lia | exact Hv].
Qed.

Lemma store_step c p mi x :
  p = dst + c ->
  written m dst g c mi -> 0 <= c -> c + 4 <= sizeof_float * n ->
  (forall k, 0 <= k < 4 -> lane_byte x k = g (c + k)) ->
  exists m', store_f32 mi p x = Ok m' /\ written m dst g (c + 4) m'.
Proof.
  intros -> Hw Hc Hn Hv. unfold store_f32.
  rewrite (written_in_block c 4 mi Hw Hc Hn).
  eexists. split; [reflexivity|].
  apply written_step; [exact Hw | exact Hc | lia | exact Hv].
Qed.

(** A loop that advances [i] by [k] floats while [i + k <= n]. *)
Lemma chunk_loop k cond body :
  0 < k <= 16 ->
  (forall i, 0 <= i <= n -> cond i = (i + k <=? n)) ->
  (forall i mi, 0 <= i -> i + k <= n -> written m dst g (sizeof_float * i) mi ->
     exists m', body i mi = Ok m' /\ written m dst g (sizeof_float * (i + k)) m') ->
  forall fuel i mi,
    0 <= i <= n -> written m dst g (sizeof_float * i) mi ->
    (Z.to_nat n < fuel)%nat ->
    exists i' m',
      for_loop fuel cond (fun i => SizeT.add i k) body i mi = Ok (i', m') /\
      0 <= i' <= n /\ n < i' + k /\ written m dst g (sizeof_float * i') m'.
Proof.
  intros Hk Hcond Hbody fuel i mi Hi Hw Hfuel.
  destruct Hspan as (Hd & Hn0 & Hn & _).
  unfold sizeof_float in Hn. rewrite modulus_eq in Hn.
  destruct (for_loop_inv
              (fun i mi => 0 <= i <= n /\ written m dst g (sizeof_float * i) mi)
              (fun i => Z.to_nat (n - i)) cond (fun i => SizeT.add i k) body)
    with (fuel := fuel) (i := i) (m := mi)
    as (i' & m' & E & [Hi' Hw'] & Hc').
  - intros j mj [Hj Hwj] Hc. rewrite Hcond in Hc by exact Hj.
    apply Z.leb_le in Hc.
    destruct (Hbody j mj ltac:(lia) Hc Hwj) as (m' & E & Hw').
    exists m'. split; [exact E|].
    assert (Hadd : SizeT.add j k = j + k).
    { unfold SizeT.add. apply wrap_small. unfold SizeT.in_range.
      rewrite modulus_eq. lia. }
    rewrite Hadd. split; [split; [lia|exact Hw']|]. lia.
  - split; assumption.
  - lia.
  - exists i', m'. split; [exact E|]. split; [exact Hi'|].
    rewrite Hcond in Hc' by exact Hi'. apply Z.leb_gt in Hc'.
    split; [lia|exact Hw'].
Qed.
End BulkWrite.

(** ** neon_memory_f32 *)

Section Copy.
Variables (m : memory) (dst src n : Z).
Hypothesis Hdst : valid_span m dst n.
Hypothesis Hsrc : valid_span m src n.
Hypothesis Hdisj : ranges_disjoint dst src (sizeof_float * n) = true.

Local Abbreviation g := (copy_byte m src).

Lemma src_unchanged c mi a :
  written m dst g c mi -> 0 <= c <= sizeof_float * n ->
  src <= a < src + sizeof_float * n ->
  contents mi a = contents m a.
Proof.
  intros [_ Hc] Hr Ha. rewrite Hc. apply write_bytes_out.
  unfold ranges_disjoint in Hdisj. apply orb_true_iff in Hdisj.
  rewrite !Z.leb_le in Hdisj. lia.
Qed.

Lemma vld_src c c' p mi :
  p = src + c' ->
  written m dst g c mi -> 0 <= c <= sizeof_float * n ->
  0 <= c' -> c' + 16 <= sizeof_float * n ->
  exists v, vld1q_f32 mi p = Ok v /\
            forall k, 0 <= k < 16 ->
              lane_byte (vec_lane v (k / 4)) (k mod 4) = g (c' + k).
Proof.
  intros -> Hw Hc Hc' Hn. unfold vld1q_f32.
  rewrite (in_block_same_blocks m mi) by apply Hw.
  destruct Hsrc as (_ & _ & _ & Hin).
  rewrite (in_block_sub m src (sizeof_float * n) c' 16 Hin Hc' Hn).
  eexists. split; [reflexivity|]. intros k Hk.
  rewrite vec_lane_bytes by exact Hk. unfold copy_byte.
  rewrite (src_unchanged c mi) by (assumption || lia). f_equal. lia.
Qed.

Lemma load_src c c' p mi :
  p = src + c' ->
  written m dst g c mi -> 0 <= c <= sizeof_float * n ->
  0 <= c' -> c' + 4 <= sizeof_float * n ->
  exists x, load_f32 mi p = Ok x /\
            forall k, 0 <= k < 4 -> lane_byte x k = g (c' + k).
Proof.
  intros -> Hw Hc Hc' Hn. unfold load_f32.
  rewrite (in_block_same_blocks m mi) by apply Hw.
  destruct Hsrc as (_ & _ & _ & Hin).
  rewrite (in_block_sub m src (sizeof_float * n) c' 4 Hin Hc' Hn).
  eexists. split; [reflexivity|]. intros k Hk.
  rewrite lane_bytes_of_read by exact Hk. unfold copy_byte.
  rewrite (src_unchanged c mi) by (assumption || lia). f_equal. lia.
Qed.

Lemma copy16_body i mi :
  0 <= i -> i + 16 <= n -> written m dst g (sizeof_float * i) mi ->
  exists m',
    (let* v0 := vld1q_f32 mi (ptr_add src i) in
     let* v1 := vld1q_f32 mi (ptr_add (ptr_add src i) 4) in
     let* v2 := vld1q_f32 mi (ptr_add (ptr_add src i) 8) in
     let* v3 := vld1q_f32 mi (ptr_add (ptr_add src i) 12) in
     let* m1 := vst1q_f32 mi (ptr_add dst i) v0 in
     let* m2 := vst1q_f32 m1 (ptr_add (ptr_add dst i) 4) v1 in
     let* m3 := vst1q_f32 m2 (ptr_add (ptr_add dst i) 8) v2 in
     vst1q_f32 m3 (ptr_add (ptr_add dst i) 12) v3) = Ok m' /\
    written m dst g (sizeof_float * (i + 16)) m'.
Proof.
  intros Hi Hn Hw.
  destruct (vld_src (4 * i) (4 * i) (ptr_add src i) mi)
    as (v0 & -> & H0); [ptr | exact Hw | ptr | ptr | ptr |].
  destruct (vld_src (4 * i) (4 * i + 16) (ptr_add (ptr_add src i) 4) mi)
    as (v1 & -> & H1); [ptr | exact Hw | ptr | ptr | ptr |].
  destruct (vld_src (4 * i) (4 * i + 32) (ptr_add (ptr_add src i) 8) mi)
    as (v2 & -> & H2); [ptr | exact Hw | ptr | ptr | ptr |].
  destruct (vld_src (4 * i) (4 * i + 48) (ptr_add (ptr_add src i) 12) mi)
    as (v3 & -> & H3); [ptr | exact Hw | ptr | ptr | ptr |].
  cbn [obind].
  destruct (vst_step m dst n g Hdst (4 * i) (ptr_add dst i) mi v0)
    as (m1 & -> & W1); [ptr | exact Hw | ptr | ptr | exact H0 |].
  cbn [obind].
  destruct (vst_step m dst n g Hdst (4 * i + 16) (ptr_add (ptr_add dst i) 4) m1 v1)
    as (m2 & -> & W2); [ptr | exact W1 | ptr | ptr | exact H1 |].
  cbn [obind].
  destruct (vst_step m dst n g Hdst (4 * i + 16 + 16) (ptr_add (ptr_add dst i) 8) m2 v2)
    as (m3 & -> & W3); [ptr | exact W2 | ptr | ptr | |].
  { intros k Hk. rewrite H2 by exact Hk. f_equal. lia. }
  cbn [obind].
  destruct (vst_step m dst n g Hdst (4 * i + 16 + 16 + 16)
              (ptr_add (ptr_add dst i) 12) m3 v3)
    as (m4 & -> & W4); [ptr | exact W3 | ptr | ptr | |].
  { intros k Hk. rewrite H3 by exact Hk. f_equal. lia. }
  cbn [obind]. exists m4. split; [reflexivity|].
  replace (sizeof_float * (i + 16)) with (4 * i + 16 + 16 + 16 + 16) by ptr.
  exact W4.
Qed.

Lemma copy4_body i mi :
  0 <= i -> i + 4 <= n -> written m dst g (sizeof_float * i) mi ->
  exists m',
    (let* v := vld1q_f32 mi (ptr_add src i) in
     vst1q_f32 mi (ptr_add dst i) v) = Ok m' /\
    written m dst g (sizeof_float * (i + 4)) m'.
Proof.
  intros Hi Hn Hw.
  destruct (vld_src (4 * i) (4 * i) (ptr_add src i) mi)
    as (v0 & -> & H0); [ptr | exact Hw | ptr | ptr | ptr |].
  cbn [obind].
  destruct (vst_step m dst n g Hdst (4 * i) (ptr_add dst i) mi v0)
    as (m1 & -> & W1); [ptr | exact Hw | ptr | ptr | exact H0 |].
  exists m1. split; [reflexivity|].
  replace (sizeof_float * (i + 4)) with (4 * i + 16) by ptr. exact W1.
Qed.

Lemma copy1_body i mi :
  0 <= i -> i + 1 <= n -> written m dst g (sizeof_float * i) mi ->
  exists m',
    (let* x := load_f32 mi (ptr_add src i) in
     store_f32 mi (ptr_add dst i) x) = Ok m' /\
    written m dst g (sizeof_float * (i + 1)) m'.
Proof.
  intros Hi Hn Hw.
  destruct (load_src (4 * i) (4 * i) (ptr_add src i) mi)
    as (x & -> & H0); [ptr | exact Hw | ptr | ptr | ptr |].
  cbn [obind].
  destruct (store_step m dst n g Hdst (4 * i) (ptr_add dst i) mi x)
    as (m1 & -> & W1); [ptr | exact Hw | ptr | ptr | exact H0 |].
  exists m1. split; [reflexivity|].
  replace (sizeof_float * (i + 1)) with (4 * i + 4) by ptr. exact W1.
Qed.

(** The aligned path leaves [dst] holding the bytes of [src]. *)
Lemma copy_aligned_path fuel :
  IS_ALIGNED dst = true -> IS_ALIGNED src = true ->
  (Z.to_nat n < fuel)%nat ->
  exists m', neon_memory_f32 fuel dst src n m = Ok m' /\
             written m dst g (sizeof_float * n) m'.
Proof.
  intros Ha1 Ha2 Hfuel. unfold neon_memory_f32. rewrite Ha1, Ha2.
  cbn [negb orb].
  assert (Hn0 : 0 <= n) by apply Hdst.
  destruct (chunk_loop m dst n g Hdst 16
              (fun i => SizeT.add i 16 <=? n)
              (fun i mi =>
                 let* v0 := vld1q_f32 mi (ptr_add src i) in
                 let* v1 := vld1q_f32 mi (ptr_add (ptr_add src i) 4) in
                 let* v2 := vld1q_f32 mi (ptr_add (ptr_add src i) 8) in
                 let* v3 := vld1q_f32 mi (ptr_add (ptr_add src i) 12) in
                 let* m1 := vst1q_f32 mi (ptr_add dst i) v0 in
                 let* m2 := vst1q_f32 m1 (ptr_add (ptr_add dst i) 4) v1 in
                 let* m3 := vst1q_f32 m2 (ptr_add (ptr_add dst i) 8) v2 in
                 vst1q_f32 m3 (ptr_add (ptr_add dst i) 12) v3))
    with (fuel := fuel) (i := 0) (mi := m)
    as (i1 & m1 & -> & Hi1 & _ & W1).
  { lia. }
  { intros i Hi. unfold SizeT.add. rewrite wrap_small; [reflexivity|].
    destruct Hdst as (Hd0 & _ & Hb & _). unfold SizeT.in_range.
    unfold sizeof_float in Hb. rewrite modulus_eq in *. lia. }
  { intros; apply copy16_body; assumption. }
  { lia. }
  { replace (sizeof_float * 0) with 0 by reflexivity. apply written_0. }
  { exact Hfuel. }
  cbn [obind].
  destruct (chunk_loop m dst n g Hdst 4
              (fun i => SizeT.add i 4 <=? n)
              (fun i mi =>
                 let* v := vld1q_f32 mi (ptr_add src i) in
                 vst1q_f32 mi (ptr_add dst i) v))
    with (fuel := fuel) (i := i1) (mi := m1)
    as (i2 & m2 & -> & Hi2 & _ & W2).
  { lia. }
  { intros i Hi. unfold SizeT.add. rewrite wrap_small; [reflexivity|].
    destruct Hdst as (Hd0 & _ & Hb & _). unfold SizeT.in_range.
    unfold sizeof_float in Hb. rewrite modulus_eq in *. lia. }
  { intros; apply copy4_body; assumption. }
  { exact Hi1. }
  { exact W1. }
  { exact Hfuel. }
  cbn [obind].
  destruct (chunk_loop m dst n g Hdst 1
              (fun i => i <? n)
              (fun i mi =>
                 let* x := load_f32 mi (ptr_add src i) in
                 store_f32 mi (ptr_add dst i) x))
    with (fuel := fuel) (i := i2) (mi := m2)
    as (i3 & m3 & -> & Hi3 & Hend & W3).
  { lia. }
  { intros i Hi. destruct (Z.ltb_spec i n), (Z.leb_spec (i + 1) n);
      reflexivity || lia. }
  { intros; apply copy1_body; assumption. }
  { exact Hi2. }
  { exact W2. }
  { exact Hfuel. }
  cbn [obind]. exists m3. split; [reflexivity|].
  assert (E : i3 = n) by lia. rewrite <- E. exact W3.
Qed.

(** The fallback path is [memcpy] of [4 * n] bytes. *)
Lemma copy_fallback :
  memcpy dst src (SizeT.mul n sizeof_float) m =
    Ok (copied m dst src (sizeof_float * n)).
Proof.
  destruct Hdst as (Hd0 & Hn0 & Hdb & Hdin), Hsrc as (_ & _ & _ & Hsin).
  assert (E : SizeT.mul n sizeof_float = sizeof_float * n).
  { unfold SizeT.mul, sizeof_float in *. rewrite wrap_small; [lia|].
    unfold SizeT.in_range. lia. }
  unfold memcpy. rewrite E, Hdin, Hsin, Hdisj. reflexivity.
Qed.

Lemma copy_any_path fuel :
  (Z.to_nat n < fuel)%nat ->
  exists m', neon_memory_f32 fuel dst src n m = Ok m' /\
             written m dst g (sizeof_float * n) m'.
Proof.
  intros Hfuel.
  destruct (IS_ALIGNED dst) eqn:Ha1; [destruct (IS_ALIGNED src) eqn:Ha2|].
  - apply copy_aligned_path; assumption.
  - unfold neon_memory_f32. rewrite Ha1, Ha2. cbn [negb orb].
    rewrite copy_fallback. eexists. split; [reflexivity|].
    split; [reflexivity|]. intros a. reflexivity.
  - unfold neon_memory_f32. rewrite Ha1. cbn [negb orb].
    rewrite copy_fallback. eexists. split; [reflexivity|].
    split; [reflexivity|]. intros a. reflexivity.
Qed.
End Copy.

Lemma span_get_written m dst g n m' i :
  written m dst g (sizeof_float * n) m' -> 0 <= i < n ->
  span_get m' dst i =
    lane_of_bytes (g (sizeof_float * i)) (g (sizeof_float * i + 1))
                  (g (sizeof_float * i + 2)) (g (sizeof_float * i + 3)).
Proof.
  intros [_ Hc] Hi. unfold span_get, read_lane, ptr_add, sizeof_float in *.
  rewrite !Hc, !write_bytes_in by lia.
  f_equal; f_equal; lia.
Qed.

(** C4: for spans [dst] and [src] of [n >= 0] floats that do not overlap,
    whatever their alignment and whatever [n] modulo 4, [neon_memory_f32]
    returns, [dst[i] = src[i]] for every [i < n], and the memory it leaves
    is the one the fallback's [memcpy] of [4 * n] bytes leaves. *)
Theorem neon_memory_f32_copies : forall fuel dst src n m,
  valid_span m dst n -> valid_span m src n ->
  ranges_disjoint dst src (sizeof_float * n) = true ->
  (Z.to_nat n < fuel)%nat ->
  exists m' mc,
    neon_memory_f32 fuel dst src n m = Ok m' /\
    memcpy dst src (SizeT.mul n sizeof_float) m = Ok mc /\
    (forall i, 0 <= i < n -> span_get m' dst i = span_get m src i) /\
    blocks m' = blocks mc /\
    (forall a, contents m' a = contents mc a).
Proof.
  intros fuel dst src n m Hdst Hsrc Hdisj Hfuel.
  destruct (copy_any_path m dst src n Hdst Hsrc Hdisj fuel Hfuel)
    as (m' & E & W).
  exists m', (copied m dst src (sizeof_float * n)).
  split; [exact E|]. split; [apply copy_fallback; assumption|].
  split; [|exact W].
  intros i Hi. rewrite (span_get_written _ _ _ _ _ _ W Hi).
  unfold span_get, read_lane, ptr_add, copy_byte. f_equal; f_equal; lia.
Qed.

Lemma neon_memory_f32_copies_witness :
  exists m' mc,
    neon_memory_f32 22 4096 8192 21 mem1 = Ok m' /\
    memcpy 4096 8192 (SizeT.mul 21 sizeof_float) mem1 = Ok mc /\
    (forall i, 0 <= i < 21 -> span_get m' 4096 i = span_get mem1 8192 i) /\
    blocks m' = blocks mc /\
    (forall a, contents m' a = contents mc a).
Proof.
  apply (neon_memory_f32_copies 22 4096 8192 21 mem1).
  - unfold valid_span. rewrite modulus_eq.
    split; [lia|]. split; [lia|]. split; [unfold sizeof_float; lia|reflexivity].
  - unfold valid_span. rewrite modulus_eq.
    split; [lia|]. split; [lia|]. split; [unfold sizeof_float; lia|reflexivity].
  - reflexivity.
  - vm_compute. lia.
Defined.

(** ** neon_fill_f32 *)

Section Fill.
Variables (m : memory) (dst value n : Z).
Hypothesis Hdst : valid_span m dst n.

Local Abbreviation g := (fill_byte value).

Lemma fill_vector_bytes c k :
  c mod 4 = 0 ->
  lane_byte (vec_lane (vdupq_n_f32 value) (k / 4)) (k mod 4) = g (c + k).
Proof.
  intros Hc. unfold fill_byte.
  replace ((c + k) mod 4) with (k mod 4)
    by (Z.div_mod_to_equations; lia).
  f_equal. unfold vec_lane, vdupq_n_f32. cbn [lane0 lane1 lane2 lane3].
  destruct (k / 4 =? 0), (k / 4 =? 1), (k / 4 =? 2); reflexivity.
Qed.

Lemma fill_scalar_bytes c k :
  c mod 4 = 0 -> 0 <= k < 4 -> lane_byte value k = g (c + k).
Proof.
  intros Hc Hk. unfold fill_byte. f_equal. Z.div_mod_to_equations. lia.
Qed.

Lemma fill16_body i mi :
  0 <= i -> i + 16 <= n -> written m dst g (sizeof_float * i) mi ->
  exists m',
    (let* m1 := vst1q_f32 mi (ptr_add dst i) (vdupq_n_f32 value) in
     let* m2 := vst1q_f32 m1 (ptr_add (ptr_add dst i) 4) (vdupq_n_f32 value) in
     let* m3 := vst1q_f32 m2 (ptr_add (ptr_add dst i) 8) (vdupq_n_f32 value) in
     vst1q_f32 m3 (ptr_add (ptr_add dst i) 12) (vdupq_n_f32 value)) = Ok m' /\
    written m dst g (sizeof_float * (i + 16)) m'.
Proof.
  intros Hi Hn Hw.
  destruct (vst_step m dst n g Hdst (4 * i) (ptr_add dst i) mi (vdupq_n_f32 value))
    as (m1 & -> & W1); [ptr | exact Hw | ptr | ptr | |].
  { intros k _. apply fill_vector_bytes. Z.div_mod_to_equations. lia. }
  cbn [obind].
  destruct (vst_step m dst n g Hdst (4 * i + 16) (ptr_add (ptr_add dst i) 4)
              m1 (vdupq_n_f32 value))
    as (m2 & -> & W2); [ptr | exact W1 | ptr | ptr | |].
  { intros k _. apply fill_vector_bytes. Z.div_mod_to_equations. lia. }
  cbn [obind].
  destruct (vst_step m dst n g Hdst (4 * i + 16 + 16) (ptr_add (ptr_add dst i) 8)
              m2 (vdupq_n_f32 value))
    as (m3 & -> & W3); [ptr | exact W2 | ptr | ptr | |].
  { intros k _. apply fill_vector_bytes. Z.div_mod_to_equations. lia. }
  cbn [obind].
  destruct (vst_step m dst n g Hdst (4 * i + 16 + 16 + 16)
              (ptr_add (ptr_add dst i) 12) m3 (vdupq_n_f32 value))
    as (m4 & -> & W4); [ptr | exact W3 | ptr | ptr | |].
  { intros k _. apply fill_vector_bytes. Z.div_mod_to_equations. lia. }
  exists m4. split; [reflexivity|].
  replace (sizeof_float * (i + 16)) with (4 * i + 16 + 16 + 16 + 16) by ptr.
  exact W4.
Qed.

Lemma fill4_body i mi :
  0 <= i -> i + 4 <= n -> written m dst g (sizeof_float * i) mi ->
  exists m',
    vst1q_f32 mi (ptr_add dst i) (vdupq_n_f32 value) = Ok m' /\
    written m dst g (sizeof_float * (i + 4)) m'.
Proof.
  intros Hi Hn Hw.
  destruct (vst_step m dst n g Hdst (4 * i) (ptr_add dst i) mi (vdupq_n_f32 value))
    as (m1 & -> & W1); [ptr | exact Hw | ptr | ptr | |].
  { intros k _. apply fill_vector_bytes. Z.div_mod_to_equations. lia. }
  exists m1. split; [reflexivity|].
  replace (sizeof_float * (i + 4)) with (4 * i + 16) by ptr. exact W1.
Qed.

Lemma fill1_body i mi :
  0 <= i -> i + 1 <= n -> written m dst g (sizeof_float * i) mi ->
  exists m',
    store_f32 mi (ptr_add dst i) value = Ok m' /\
    written m dst g (sizeof_float * (i + 1)) m'.
Proof.
  intros Hi Hn Hw.
  destruct (store_step m dst n g Hdst (4 * i) (ptr_add dst i) mi value)
    as (m1 & -> & W1); [ptr | exact Hw | ptr | ptr | |].
  { intros k Hk. apply fill_scalar_bytes; [|exact Hk].
    Z.div_mod_to_equations. lia. }
  exists m1. split; [reflexivity|].
  replace (sizeof_float * (i + 1)) with (4 * i + 4) by ptr. exact W1.
Qed.

Lemma add_no_wrap k i : 0 < k <= 16 -> 0 <= i <= n -> SizeT.add i k = i + k.
Proof.
  intros Hk Hi. unfold SizeT.add. apply wrap_small.
  destruct Hdst as (Hd0 & _ & Hb & _). unfold SizeT.in_range.
  unfold sizeof_float in Hb. rewrite modulus_eq in *. lia.
Qed.

Lemma scalar_cond i : (i <? n) = (i + 1 <=? n).
Proof.
  destruct (Z.ltb_spec i n), (Z.leb_spec (i + 1) n); reflexivity || lia.
Qed.

Lemma fill_any_path fuel :
  (Z.to_nat n < fuel)%nat ->
  exists m', neon_fill_f32 fuel dst value n m = Ok m' /\
             written m dst g (sizeof_float * n) m'.
Proof.
  intros Hfuel. unfold neon_fill_f32.
  assert (Hn0 : 0 <= n) by apply Hdst.
  assert (W0 : written m dst g (sizeof_float * 0) m)
    by (replace (sizeof_float * 0) with 0 by reflexivity; apply written_0).
  destruct (IS_ALIGNED dst); cbn [negb].
  - destruct (chunk_loop m dst n g Hdst 16
                (fun i => SizeT.add i 16 <=? n)
                (fun i mi =>
                   let* m1 := vst1q_f32 mi (ptr_add dst i) (vdupq_n_f32 value) in
                   let* m2 := vst1q_f32 m1 (ptr_add (ptr_add dst i) 4) (vdupq_n_f32 value) in
                   let* m3 := vst1q_f32 m2 (ptr_add (ptr_add dst i) 8) (vdupq_n_f32 value) in
                   vst1q_f32 m3 (ptr_add (ptr_add dst i) 12) (vdupq_n_f32 value)))
      with (fuel := fuel) (i := 0) (mi := m)
      as (i1 & m1 & -> & Hi1 & _ & W1);
      [lia | intros; rewrite add_no_wrap by lia; reflexivity
       | intros; apply fill16_body; assumption | lia | exact W0 | exact Hfuel |].
    cbn [obind].
    destruct (chunk_loop m dst n g Hdst 4
                (fun i => SizeT.add i 4 <=? n)
                (fun i mi => vst1q_f32 mi (ptr_add dst i) (vdupq_n_f32 value)))
      with (fuel := fuel) (i := i1) (mi := m1)
      as (i2 & m2 & -> & Hi2 & _ & W2);
      [lia | intros; rewrite add_no_wrap by lia; reflexivity
       | intros; apply fill4_body; assumption | exact Hi1 | exact W1
       | exact Hfuel |].
    cbn [obind].
    destruct (chunk_loop m dst n g Hdst 1
                (fun i => i <? n)
                (fun i mi => store_f32 mi (ptr_add dst i) value))
      with (fuel := fuel) (i := i2) (mi := m2)
      as (i3 & m3 & -> & Hi3 & Hend & W3);
      [lia | intros; apply scalar_cond
       | intros; apply fill1_body; assumption | exact Hi2 | exact W2
       | exact Hfuel |].
    cbn [obind]. exists m3. split; [reflexivity|].
    assert (E : i3 = n) by lia. rewrite <- E. exact W3.
  - destruct (chunk_loop m dst n g Hdst 1
                (fun i => i <? n)
                (fun i mi => store_f32 mi (ptr_add dst i) value))
      with (fuel := fuel) (i := 0) (mi := m)
      as (i3 & m3 & -> & Hi3 & Hend & W3);
      [lia | intros; apply scalar_cond
       | intros; apply fill1_body; assumption | lia | exact W0
       | exact Hfuel |].
    cbn [obind]. exists m3. split; [reflexivity|].
    assert (E : i3 = n) by lia. rewrite <- E. exact W3.
Qed.
End Fill.

(** C5: for a span [dst] of [n >= 0] floats of any alignment and a 32-bit
    value, [neon_fill_f32] returns, [dst[i] = value] for every [i < n], and
    every byte outside the [4 * n] bytes of the span is what it was. *)
Theorem neon_fill_f32_fills : forall fuel dst value n m,
  valid_span m dst n -> is_lane value -> (Z.to_nat n < fuel)%nat ->
  exists m',
    neon_fill_f32 fuel dst value n m = Ok m' /\
    (forall i, 0 <= i < n -> span_get m' dst i = value) /\
    (forall a, ~ (dst <= a < dst + sizeof_float * n) ->
               contents m' a = contents m a) /\
    blocks m' = blocks m.
Proof.
  intros fuel dst value n m Hdst Hv Hfuel.
  destruct (fill_any_path m dst value n Hdst fuel Hfuel) as (m' & E & W).
  exists m'. split; [exact E|]. split; [|split].
  - intros i Hi. rewrite (span_get_written _ _ _ _ _ _ W Hi).
    unfold sizeof_float, fill_byte.
    replace ((4 * i) mod 4) with 0 by (Z.div_mod_to_equations; lia).
    replace ((4 * i + 1) mod 4) with 1 by (Z.div_mod_to_equations; lia).
    replace ((4 * i + 2) mod 4) with 2 by (Z.div_mod_to_equations; lia).
    replace ((4 * i + 3) mod 4) with 3 by (Z.div_mod_to_equations; lia).
    apply lane_of_lane_bytes. exact Hv.
  - intros a Ha. destruct W as [_ Hc]. rewrite Hc.
    apply write_bytes_out. exact Ha.
  - apply W.
Qed.

Lemma neon_fill_f32_fills_witness :
  exists m',
    neon_fill_f32 22 4096 (F32.of_Z 7) 21 mem1 = Ok m' /\
    (forall i, 0 <= i < 21 -> span_get m' 4096 i = F32.of_Z 7) /\
    (forall a, ~ (4096 <= a < 4096 + sizeof_float * 21) ->
               contents m' a = contents mem1 a) /\
    blocks m' = blocks mem1.
Proof.
  apply (neon_fill_f32_fills 22 4096 (F32.of_Z 7) 21 mem1).
  - unfold valid_span. rewrite modulus_eq.
    split; [lia|]. split; [lia|]. split; [unfold sizeof_float; lia|reflexivity].
  - vm_compute. split; [discriminate|reflexivity].
  - vm_compute. lia.
Defined.

(** ** Reductions and select *)

Lemma f32_literals :
  F32.of_Z 0 = 0 /\ F32.of_Z 1 = 0x3F800000 /\ F32.of_Z 5 = 0x40A00000 /\
  F32.of_Z 10 = 0x41200000 /\ F32.of_Z 70 = 0x428C0000 /\
  F32.of_Z 88 = 0x42B00000 /\ F32.of_Z (-88) = 0xC2B00000 /\
  F32.decimal 5 10 = 0x3F000000 /\
  F32.decimal 16666667 100000000 = 0x3E2AAAAB /\
  F32.decimal 4166667 100000000 = 0x3D2AAAAC.
Proof. vm_compute. repeat split. Qed.

Lemma sf_88_literals :
  F32.of_bits (F32.of_Z 88) = sf_88 /\ F32.of_bits (F32.of_Z (-88)) = sf_m88.
Proof. split; reflexivity. Qed.

(** C6: the reference values of the 4-lane dot product and of the
    horizontal sum, maximum and minimum. *)
Theorem reductions_reference_values :
  neon_dot_f32x4 (vec_of_Z 1 2 3 4) (vec_of_Z 5 6 7 8) = F32.of_Z 70 /\
  neon_sum_f32x4 (vec_of_Z 1 2 3 4) = F32.of_Z 10 /\
  neon_max_f32x4 (vec_of_Z 1 5 3 2) = F32.of_Z 5 /\
  neon_min_f32x4 (vec_of_Z 1 5 3 2) = F32.of_Z 1.
Proof. vm_compute. repeat split. Qed.

Lemma bsl_all_ones a :
  is_lane a -> Z.lor (Z.land a (2 ^ 32 - 1)) (Z.ldiff 0 (2 ^ 32 - 1)) = a.
Proof.
  intros Ha. rewrite Z.ldiff_0_l, Z.lor_0_r.
  change (2 ^ 32 - 1) with (Z.ones 32). rewrite Z.land_ones by lia.
  apply Z.mod_small. exact Ha.
Qed.

Lemma relu_lane a :
  is_lane a ->
  Z.lor (Z.land a (if F32.gtb a (F32.of_Z 0) then 2 ^ 32 - 1 else 0))
        (Z.ldiff (F32.of_Z 0) (if F32.gtb a (F32.of_Z 0) then 2 ^ 32 - 1 else 0))
  = if F32.gtb a (F32.of_Z 0) then a else F32.of_Z 0.
Proof.
  intros Ha. change (F32.of_Z 0) with 0.
  destruct (F32.gtb a 0).
  - apply bsl_all_ones. exact Ha.
  - rewrite Z.land_0_r. reflexivity.
Qed.

(** C8: [select(x > 0, x, 0)] returns, in each lane, the lane of [x] where
    it is greater than zero and [0.0f] elsewhere; on [-2, 3, -1, 5] it
    gives [0, 3, 0, 5]. *)
Theorem relu_via_select_spec : forall x : float32x4_t,
  valid_vec x ->
  (forall k, vec_lane (relu_via_select x) k =
             if F32.gtb (vec_lane x k) (F32.of_Z 0) then vec_lane x k
             else F32.of_Z 0) /\
  relu_via_select (vec_of_Z (-2) 3 (-1) 5) = vec_of_Z 0 3 0 5.
Proof.
  intros x (H0 & H1 & H2 & H3). split; [|vm_compute; reflexivity].
  intros k.
  unfold relu_via_select, neon_select_f32x4, neon_cmpgt_f32x4, vbslq_f32,
    vcgtq_f32, vec_map3, vec_map2, NEON_ZEROS, vec_lane.
  cbn [lane0 lane1 lane2 lane3].
  destruct (k =? 0); [apply relu_lane; exact H0|].
  destruct (k =? 1); [apply relu_lane; exact H1|].
  destruct (k =? 2); [apply relu_lane; exact H2|].
  apply relu_lane; exact H3.
Qed.

Lemma relu_via_select_spec_witness :
  vec_lane (relu_via_select (vec_of_Z (-2) 3 (-1) 5)) 1 =
    (if F32.gtb (vec_lane (vec_of_Z (-2) 3 (-1) 5) 1) (F32.of_Z 0)
     then vec_lane (vec_of_Z (-2) 3 (-1) 5) 1 else F32.of_Z 0).
Proof.
  apply (proj1 (relu_via_select_spec (vec_of_Z (-2) 3 (-1) 5)
    ltac:(vm_compute; repeat split; discriminate))).
Defined.

(** ** Rounding to binary32 keeps bounded results finite *)

Lemma digits2_log2 p : Zpos (digits2_pos p) = Z.log2 (Zpos p) + 1.
Proof.
  assert (H : digits2_pos p = Pos.size p).
  { induction p as [p IH|p IH|]; cbn [digits2_pos Pos.size]; congruence. }
  rewrite H. destruct p; cbn [Z.log2 Pos.size]; lia.
Qed.

Lemma Zdigits2_le_iff z k :
  0 <= z -> 0 <= k -> (Zdigits2 z <= k <-> z < 2 ^ k).
Proof.
  intros Hz Hk. destruct z as [|p|p]; [|clear Hz|lia].
  - cbn [Zdigits2]. split; intros _; [apply Z.pow_pos_nonneg; lia|exact Hk].
  - cbn [Zdigits2]. rewrite digits2_log2.
    rewrite (Z.log2_lt_pow2 (Zpos p) k) by lia. lia.
Qed.

Lemma shr_1_m mrs : 0 <= shr_m mrs -> shr_m (shr_1 mrs) = shr_m mrs / 2.
Proof.
  destruct mrs as [m r s]. cbn [shr_m]. intros Hm.
  rewrite <- Z.div2_div.
  destruct m as [|[p|p|]|p]; try reflexivity. lia.
Qed.

Lemma pow2_xO p : 2 ^ Zpos p~0 = 2 ^ Zpos p * 2 ^ Zpos p.
Proof. rewrite <- Z.pow_add_r by lia. f_equal. lia. Qed.

Lemma pow2_xI p : 2 ^ Zpos p~1 = 2 * (2 ^ Zpos p * 2 ^ Zpos p).
Proof.
  rewrite <- Z.pow_add_r by lia. rewrite <- Z.pow_succ_r by lia. f_equal. lia.
Qed.

Lemma iter_shr_m p : forall mrs,
  0 <= shr_m mrs ->
  shr_m (SpecFloat.iter_pos shr_1 p mrs) = shr_m mrs / 2 ^ Zpos p.
Proof.
  induction p as [p IH|p IH|]; intros mrs Hm; cbn [SpecFloat.iter_pos].
  - assert (Hp : 0 < 2 ^ Zpos p) by (apply Z.pow_pos_nonneg; lia).
    assert (H1 : 0 <= shr_m (shr_1 mrs)).
    { rewrite shr_1_m by exact Hm. apply Z.div_pos; lia. }
    assert (H2 : 0 <= shr_m (SpecFloat.iter_pos shr_1 p (shr_1 mrs))).
    { rewrite IH by exact H1. apply Z.div_pos; [exact H1|exact Hp]. }
    rewrite IH by exact H2. rewrite IH by exact H1. rewrite shr_1_m by exact Hm.
    rewrite !Z.div_div by lia. rewrite pow2_xI. reflexivity.
  - assert (Hp : 0 < 2 ^ Zpos p) by (apply Z.pow_pos_nonneg; lia).
    assert (H2 : 0 <= shr_m (SpecFloat.iter_pos shr_1 p mrs)).
    { rewrite IH by exact Hm. apply Z.div_pos; [exact Hm|exact Hp]. }
    rewrite IH by exact H2. rewrite IH by exact Hm.
    rewrite !Z.div_div by lia. rewrite pow2_xO. reflexivity.
  - rewrite shr_1_m by exact Hm. reflexivity.
Qed.

Lemma round_nearest_even_bounds m l :
  m <= round_nearest_even m l <= m + 1.
Proof.
  destruct l as [|[| |]]; cbn [round_nearest_even];
    try destruct (Z.even m); lia.
Qed.

Lemma shr_m_of_loc m l : shr_m (shr_record_of_loc m l) = m.
Proof. destruct l as [|[| |]]; reflexivity. Qed.

(** shr: mantissa and exponent after the shift *)
Lemma shr_spec m e n :
  0 <= m ->
  let r := shr (shr_record_of_loc m loc_Exact) e n in
  (n <= 0 -> shr_m (fst r) = m /\ snd r = e /\ loc_of_shr_record (fst r) = loc_Exact) /\
  (0 < n -> shr_m (fst r) = m / 2 ^ n /\ snd r = e + n).
Proof.
  intros Hm. cbn zeta. split; intros Hn.
  - destruct n; try lia; cbn; auto.
  - destruct n as [|p|p]; try lia. cbn [shr fst snd].
    rewrite iter_shr_m by (cbn; exact Hm). cbn [shr_record_of_loc shr_m]. auto.
Qed.

Lemma pow2_pos a : 0 <= a -> 0 < 2 ^ a.
Proof. intros. apply Z.pow_pos_nonneg; lia. Qed.

Lemma pow2_lt a b : a < b -> 0 <= b -> 2 ^ a < 2 ^ b.
Proof. intros. apply Z.pow_lt_mono_r; lia. Qed.

Lemma pow2_le a b : a <= b -> 2 ^ a <= 2 ^ b.
Proof. intros. apply Z.pow_le_mono_r; lia. Qed.

Lemma pow2_succ a : 0 <= a -> 2 ^ (a + 1) = 2 * 2 ^ a.
Proof. intros. rewrite <- Z.pow_succ_r by lia. f_equal. Qed.

Lemma pos_lt_pow2 (m : positive) a : Zpos m < 2 ^ a -> 0 < a.
Proof.
  intros H. destruct (Z_lt_le_dec 0 a) as [|Ha]; [assumption|exfalso].
  assert (2 ^ a <= 2 ^ 0) by (apply pow2_le; exact Ha).
  change (2 ^ 0) with 1 in *. lia.
Qed.

Lemma div_pow2_lt z a n t :
  0 <= z < 2 ^ a -> 0 <= n -> a - n <= t -> 0 <= t -> z / 2 ^ n < 2 ^ t.
Proof.
  intros [Hz Hza] Hn Ht Ht0.
  pose proof (pow2_pos n Hn) as Hp.
  apply Z.div_lt_upper_bound; [exact Hp|].
  rewrite <- Z.pow_add_r by lia.
  eapply Z.lt_le_trans; [exact Hza|]. apply pow2_le. lia.
Qed.

Lemma round_aux_bounded s m e k :
  Zpos m < 2 ^ (k - e) -> 0 <= k <= 100 ->
  finite_below (k + 1) (binary_round_aux 24 128 s (Zpos m) e loc_Exact).
Proof.
  intros Hm Hk.
  pose proof (pos_lt_pow2 m _ Hm) as Hke.
  assert (Hd : Zdigits2 (Zpos m) <= k - e)
    by (apply Zdigits2_le_iff; lia || assumption).
  assert (Hd1 : 1 <= Zdigits2 (Zpos m)) by (cbn [Zdigits2]; lia).
  assert (Hmd : Zpos m < 2 ^ Zdigits2 (Zpos m))
    by (apply Zdigits2_le_iff; lia).
  unfold binary_round_aux, shr_fexp, fexp, emin.
  change (3 - 128 - 24) with (-149). change (128 - 24) with 104.
  set (d := Zdigits2 (Zpos m)) in *.
  set (n := Z.max (d + e - 24) (-149) - e).
  destruct (shr_spec (Zpos m) e n ltac:(lia)) as [Hn0 Hn1].
  destruct (shr (shr_record_of_loc (Zpos m) loc_Exact) e n) as [mrs' e'] eqn:E1.
  cbn [fst snd] in Hn0, Hn1.
  destruct (Z_le_gt_dec n 0) as [Hn|Hn].
  - destruct (Hn0 Hn) as (Em & Ee & El). rewrite El, Em.
    cbn [round_nearest_even]. subst e'. fold d. fold n. rewrite E1, Em.
    assert (He : (e <=? 104) = true) by (apply Z.leb_le; lia).
    rewrite He. cbn [finite_below].
    split; [eapply Z.lt_le_trans; [exact Hm|apply pow2_le; lia]|].
    split; [|lia].
    eapply Z.lt_le_trans; [exact Hmd|apply pow2_le; lia].
  - destruct (Hn1 ltac:(lia)) as (Em & Ee). clear Hn0 Hn1.
    pose proof (round_nearest_even_bounds (shr_m mrs') (loc_of_shr_record mrs'))
      as Hr.
    set (m2 := round_nearest_even (shr_m mrs') (loc_of_shr_record mrs')) in *.
    set (t := Z.max (d - n) 0).
    assert (Hm' : 0 <= shr_m mrs' < 2 ^ t).
    { rewrite Em. split; [apply Z.div_pos; [lia|apply pow2_pos; lia]|].
      apply (div_pow2_lt (Zpos m) d n t); lia. }
    assert (Hm2 : 0 <= m2 < 2 ^ (t + 1)).
    { split; [lia|]. rewrite pow2_succ by lia. lia. }
    assert (He' : -149 <= e' <= 104) by lia.
    assert (Hte : t + e' <= k) by lia.
    assert (Hd2 : Zdigits2 m2 <= t + 1) by (apply Zdigits2_le_iff; lia).
    assert (Hm2d : m2 < 2 ^ Zdigits2 m2).
    { apply Zdigits2_le_iff; try lia. destruct m2; cbn [Zdigits2]; lia. }
    assert (Hd20 : 0 <= Zdigits2 m2) by (destruct m2; cbn [Zdigits2]; lia).
    set (d2 := Zdigits2 m2) in *.
    set (n2 := Z.max (d2 + e' - 24) (-149) - e').
    destruct (shr_spec m2 e' n2 ltac:(lia)) as [Hn0 Hn1].
    destruct (shr (shr_record_of_loc m2 loc_Exact) e' n2) as [mrs'' e''] eqn:E2.
    cbn [fst snd] in Hn0, Hn1.
    destruct (Z_le_gt_dec n2 0) as [Hn2|Hn2].
    + destruct (Hn0 Hn2) as (Em2 & Ee2 & _). rewrite Em2.
      destruct m2 as [|p2|p2]; [exact I| |lia].
      assert (He : (e'' <=? 104) = true) by (apply Z.leb_le; lia).
      rewrite He. cbn [finite_below].
      split; [|split; [|lia]].
      * eapply Z.lt_le_trans; [apply Hm2|]. apply pow2_le. lia.
      * eapply Z.lt_le_trans; [exact Hm2d|]. apply pow2_le. lia.
    + destruct (Hn1 ltac:(lia)) as (Em2 & Ee2). rewrite Em2.
      destruct (m2 / 2 ^ n2) as [|p2|p2] eqn:Ediv; [exact I| |].
      * assert (He : (e'' <=? 104) = true) by (apply Z.leb_le; lia).
        rewrite He. cbn [finite_below]. rewrite <- Ediv.
        split; [|split; [|lia]].
        -- destruct (Z_le_gt_dec 0 (k + 1 - e'')) as [Hpos|Hneg].
           ++ apply (div_pow2_lt m2 (t + 1) n2); lia.
           ++ exfalso.
              assert (m2 / 2 ^ n2 < 2 ^ 0)
                by (apply (div_pow2_lt m2 (t + 1) n2); lia).
              change (2 ^ 0) with 1 in *. lia.
        -- apply (div_pow2_lt m2 d2 n2); lia.
      * exfalso.
        assert (0 <= m2 / 2 ^ n2) by (apply Z.div_pos; [lia|apply pow2_pos; lia]).
        lia.
Qed.

Lemma finite_below_mono K K' f : finite_below K f -> K <= K' -> finite_below K' f.
Proof.
  destruct f as [| | |s m e]; cbn [finite_below]; try tauto.
  intros (H1 & H2 & H3) HK. split; [|tauto].
  eapply Z.lt_le_trans; [exact H1|apply pow2_le; lia].
Qed.

Lemma finite_below_finite K f : finite_below K f -> F32.sf_finite f = true.
Proof. destruct f; cbn; tauto. Qed.

Lemma shl_align_spec m e e' :
  (e' <= e -> Zpos (fst (shl_align m e e')) = Zpos m * 2 ^ (e - e') /\
              snd (shl_align m e e') = e') /\
  (e < e' -> shl_align m e e' = (m, e)).
Proof.
  unfold shl_align. destruct (e' - e) as [|d|d] eqn:E; split; intros H; try lia.
  - cbn [fst snd]. replace (e - e') with 0 by lia. split; lia.
  - reflexivity.
  - cbn [fst snd]. split; [|reflexivity].
    change (Pos.iter xO m d) with (shift_pos d m).
    rewrite shift_pos_correct. replace (e - e') with (Zpos d) by lia.
    change (2 ^ Zpos d) with (Z.pow_pos 2 d). lia.
Qed.

Lemma binary_round_bounded s m e K :
  Zpos m < 2 ^ (K - e) -> 0 <= K <= 100 ->
  finite_below (K + 1) (binary_round 24 128 s m e).
Proof.
  intros Hm HK. unfold binary_round.
  set (e' := fexp 24 128 (Zpos (digits2_pos m) + e)).
  destruct (shl_align_spec m e e') as [H1 H2].
  destruct (Z_le_gt_dec e' e) as [Hle|Hgt].
  - destruct (H1 Hle) as [Ev Ee].
    destruct (shl_align m e e') as [mz ez]. cbn [fst snd] in *. subst ez.
    apply round_aux_bounded; [|exact HK].
    rewrite Ev. pose proof (pos_lt_pow2 _ _ Hm).
    replace (K - e') with ((K - e) + (e - e')) by lia.
    rewrite Z.pow_add_r by lia.
    apply Z.mul_lt_mono_pos_r; [apply pow2_pos; lia|exact Hm].
  - rewrite H2 by lia. apply round_aux_bounded; assumption.
Qed.

Lemma mul_bounded kx ky x y :
  finite_below kx x -> finite_below ky y -> 0 <= kx + ky <= 100 ->
  finite_below (kx + ky + 1) (SFmul 24 128 x y).
Proof.
  destruct x as [sx| | |sx mx ex], y as [sy| | |sy my ey]; cbn [finite_below SFmul];
    try tauto.
  intros (Hx & _) (Hy & _) HK.
  apply round_aux_bounded; [|exact HK].
  pose proof (pos_lt_pow2 _ _ Hx). pose proof (pos_lt_pow2 _ _ Hy).
  replace (kx + ky - (ex + ey)) with ((kx - ex) + (ky - ey)) by lia.
  rewrite Z.pow_add_r by lia. rewrite Pos2Z.inj_mul.
  apply Z.mul_lt_mono_nonneg; lia.
Qed.

Lemma aligned_bound m e e' K :
  e' <= e -> Zpos m < 2 ^ (K - e) ->
  Zpos (fst (shl_align m e e')) < 2 ^ (K - e').
Proof.
  intros Hle Hm. destruct (shl_align_spec m e e') as [H1 _].
  destruct (H1 Hle) as [-> _]. pose proof (pos_lt_pow2 _ _ Hm).
  replace (K - e') with ((K - e) + (e - e')) by lia.
  rewrite Z.pow_add_r by lia.
  apply Z.mul_lt_mono_pos_r; [apply pow2_pos; lia|exact Hm].
Qed.

Lemma normalize_bounded M e K :
  Z.abs M < 2 ^ (K - e) -> 0 <= K <= 100 ->
  finite_below (K + 1) (binary_normalize 24 128 M e false).
Proof.
  intros HM HK. destruct M as [|p|p]; cbn [binary_normalize].
  - exact I.
  - apply binary_round_bounded; [exact HM|exact HK].
  - apply binary_round_bounded; [exact HM|exact HK].
Qed.

Lemma fma_bounded kx ky kz K x y z :
  finite_below kx x -> finite_below ky y -> finite_below kz z ->
  kx + ky <= K -> kz <= K -> 0 <= K <= 98 ->
  finite_below (K + 2) (F32.SFfma x y z).
Proof.
  intros Hx Hy Hz Hxy Hkz HK.
  assert (Hz' : finite_below (K + 2) z) by (eapply finite_below_mono; [exact Hz|lia]).
  destruct x as [sx| | |sx mx ex], y as [sy| | |sy my ey];
    cbn [finite_below] in Hx, Hy; try tauto; cbn [F32.SFfma].
  1-3: destruct z as [sz| | |sz mz ez]; cbn [finite_below] in Hz |- *; try tauto;
       cbn [F32.add_special]; try destruct (Bool.eqb _ _); cbn [finite_below]; tauto.
  destruct Hx as (Hx & _), Hy as (Hy & _).
  pose proof (pos_lt_pow2 _ _ Hx). pose proof (pos_lt_pow2 _ _ Hy).
  assert (Hp : Zpos (mx * my) < 2 ^ (K - (ex + ey))).
  { eapply Z.lt_le_trans with (2 ^ (kx + ky - (ex + ey))); [|apply pow2_le; lia].
    replace (kx + ky - (ex + ey)) with ((kx - ex) + (ky - ey)) by lia.
    rewrite Z.pow_add_r by lia. rewrite Pos2Z.inj_mul.
    apply Z.mul_lt_mono_nonneg; lia. }
  destruct z as [sz| | |sz mz ez]; cbn [finite_below] in Hz; try tauto.
  - eapply finite_below_mono; [apply (binary_round_bounded _ _ _ K); [exact Hp|lia]|lia].
  - destruct Hz as (Hz & _).
    assert (Hq : Zpos mz < 2 ^ (K - ez)).
    { eapply Z.lt_le_trans; [exact Hz|apply pow2_le; lia]. }
    set (e := Z.min (ex + ey) ez).
    pose proof (aligned_bound (mx * my) (ex + ey) e K ltac:(lia) Hp) as HP.
    pose proof (aligned_bound mz ez e K ltac:(lia) Hq) as HQ.
    replace (K + 2) with (K + 1 + 1) by lia.
    apply normalize_bounded; [|lia].
    replace (K + 1 - e) with ((K - e) + 1) by lia.
    pose proof (pos_lt_pow2 _ _ HP).
    rewrite pow2_succ by lia.
    destruct (xorb sx sy), sz; cbn [cond_Zopp]; lia.
Qed.

(** Fields of an assembled word. *)
Lemma of_bits_fields s E f :
  0 <= E < 256 -> 0 <= f < 2 ^ 23 ->
  F32.of_bits (F32.sign_bit s + E * 2 ^ 23 + f) = F32.decode s E f.
Proof.
  intros HE Hf. unfold F32.of_bits.
  change (2 ^ 23) with 8388608 in *. change (2 ^ 31) with 2147483648.
  change (2 ^ 8) with 256.
  assert (H1 : ((F32.sign_bit s + E * 8388608 + f) / 2147483648) mod 2
               = if s then 1 else 0).
  { destruct s; unfold F32.sign_bit; change (2 ^ 31) with 2147483648;
      Z.div_mod_to_equations; lia. }
  assert (H2 : ((F32.sign_bit s + E * 8388608 + f) / 8388608) mod 256 = E).
  { destruct s; unfold F32.sign_bit; change (2 ^ 31) with 2147483648;
      Z.div_mod_to_equations; lia. }
  assert (H3 : (F32.sign_bit s + E * 8388608 + f) mod 8388608 = f).
  { destruct s; unfold F32.sign_bit; change (2 ^ 31) with 2147483648;
      Z.div_mod_to_equations; lia. }
  rewrite H1, H2, H3. destruct s; reflexivity.
Qed.

Lemma of_bits_nan : F32.of_bits (F32.to_bits S754_nan) = S754_nan.
Proof. reflexivity. Qed.

(** Encoding after decoding gives the same fields, unless the float is NaN. *)
Lemma to_bits_decode s E f :
  0 <= E < 256 -> 0 <= f < 2 ^ 23 ->
  F32.decode s E f = S754_nan \/
  F32.to_bits (F32.decode s E f) = F32.sign_bit s + E * 2 ^ 23 + f.
Proof.
  intros HE Hf. unfold F32.decode.
  change (2 ^ 23) with 8388608 in *.
  destruct (Z.eqb_spec E 0) as [->|HE0].
  - right. destruct f as [|p|p]; [cbn [F32.to_bits]; lia| |lia].
    cbn [F32.to_bits]. change (2 ^ 23) with 8388608.
    destruct (Z.ltb_spec (Zpos p) 8388608); lia.
  - destruct (Z.eqb_spec E 255) as [->|HE1].
    + destruct (Z.eqb_spec f 0) as [->|]; [right|left; reflexivity].
      cbn [F32.to_bits]. change (2 ^ 23) with 8388608. lia.
    + right. destruct (f + 8388608) as [|p|p] eqn:Ep; try lia.
      cbn [F32.to_bits]. change (2 ^ 23) with 8388608.
      destruct (Z.ltb_spec (Zpos p) 8388608); lia.
Qed.

Lemma of_bits_is_decode w :
  exists s E f, 0 <= E < 256 /\ 0 <= f < 2 ^ 23 /\ F32.of_bits w = F32.decode s E f.
Proof.
  unfold F32.of_bits. do 3 eexists. split; [|split; [|reflexivity]].
  - change (2 ^ 8) with 256. apply Z.mod_pos_bound. lia.
  - apply Z.mod_pos_bound. reflexivity.
Qed.

Lemma of_to_of w : F32.of_bits (F32.to_bits (F32.of_bits w)) = F32.of_bits w.
Proof.
  destruct (of_bits_is_decode w) as (s & E & f & HE & Hf & ->).
  destruct (to_bits_decode s E f HE Hf) as [->| ->]; [reflexivity|].
  apply of_bits_fields; assumption.
Qed.

(** A decoded finite float has a 24-bit mantissa and an exponent >= -149. *)
Lemma decode_finite s E f s' m e :
  0 <= E < 256 -> 0 <= f < 2 ^ 23 ->
  F32.decode s E f = S754_finite s' m e -> Zpos m < 2 ^ 24 /\ -149 <= e.
Proof.
  intros HE Hf. unfold F32.decode.
  change (2 ^ 23) with 8388608 in *. change (2 ^ 24) with 16777216.
  destruct (Z.eqb_spec E 0) as [->|HE0].
  - destruct f as [|p|p]; intros [=]; subst. lia.
  - destruct (Z.eqb_spec E 255) as [->|HE1].
    + destruct (f =? 0); discriminate.
    + destruct (f + 8388608) as [|p|p] eqn:Ep; intros [=]; subst. lia.
Qed.

(** The rounded result of an operation survives encoding and decoding,
    up to its bound. *)
Lemma roundtrip_bounded K r :
  finite_below K r -> K <= 105 -> finite_below K (F32.of_bits (F32.to_bits r)).
Proof.
  destruct r as [s| | |s m e]; cbn [finite_below]; try tauto.
  - intros _ _. cbn [F32.to_bits].
    replace (F32.sign_bit s) with (F32.sign_bit s + 0 * 2 ^ 23 + 0) by lia.
    rewrite of_bits_fields by (change (2 ^ 23) with 8388608; lia). exact I.
  - intros (H1 & H2 & H3) HK. cbn [F32.to_bits].
    pose proof (pos_lt_pow2 _ _ H1) as Hpos.
    change (2 ^ 23) with 8388608 in *. change (2 ^ 24) with 16777216 in *.
    destruct (Z.ltb_spec (Zpos m) 8388608) as [Hs|Hn].
    + replace (F32.sign_bit s + Zpos m)
        with (F32.sign_bit s + 0 * 2 ^ 23 + Zpos m) by lia.
      rewrite of_bits_fields by (change (2 ^ 23) with 8388608; lia).
      cbn [F32.decode Z.eqb finite_below]. split; [|split; [assumption|lia]].
      eapply Z.lt_le_trans; [exact H1|apply pow2_le; lia].
    + change 8388608 with (2 ^ 23).
      rewrite of_bits_fields by (change (2 ^ 23) with 8388608; lia).
      unfold F32.decode.
      destruct (Z.eqb_spec (e + 150) 0); [lia|].
      destruct (Z.eqb_spec (e + 150) 255); [lia|].
      replace (Zpos m - 2 ^ 23 + 2 ^ 23) with (Zpos m) by lia.
      replace (e + 150 - 150) with e by lia.
      cbn [finite_below]. change (2 ^ 24) with 16777216. auto.
Qed.

Lemma neon_exp_lanes x :
  neon_exp_f32x4 x =
    mkV4 (poly_lane (clamp_lane (lane0 x))) (poly_lane (clamp_lane (lane1 x)))
         (poly_lane (clamp_lane (lane2 x))) (poly_lane (clamp_lane (lane3 x))).
Proof.
  cbv beta iota zeta delta
    [neon_exp_f32x4 vfmaq_f32 vmulq_f32 vmaxq_f32 vminq_f32 vec_map2 vec_map3
     vdupq_n_f32 lane0 lane1 lane2 lane3 poly_lane clamp_lane].
  reflexivity.
Qed.

Lemma FPMin_cases X Y :
  F32.sf_is_nan X = false -> F32.sf_is_nan Y = false ->
  (forall s, Y <> S754_zero s) -> F32.sf_sign Y = false ->
  (F32.FPMin X Y = X /\ SFcompare X Y = Some Lt) \/ F32.FPMin X Y = Y.
Proof.
  intros HX HY HYz HYs. unfold F32.FPMin.
  destruct (SFcompare X Y) as [[| |]|] eqn:E.
  - right. destruct Y; try reflexivity. exfalso. eapply HYz. reflexivity.
  - left. split; [|reflexivity]. destruct X; try reflexivity.
    cbn [F32.sf_sign]. rewrite HYs, orb_false_r. reflexivity.
  - right. destruct Y; try reflexivity. exfalso. eapply HYz. reflexivity.
  - destruct X, Y; cbn in HX, HY, E; discriminate.
Qed.

Lemma FPMax_cases X Y :
  F32.sf_is_nan X = false -> F32.sf_is_nan Y = false ->
  (forall s, Y <> S754_zero s) -> F32.sf_sign Y = true ->
  (F32.FPMax X Y = X /\ SFcompare X Y = Some Gt) \/ F32.FPMax X Y = Y.
Proof.
  intros HX HY HYz HYs. unfold F32.FPMax.
  destruct (SFcompare X Y) as [[| |]|] eqn:E.
  - right. destruct Y; try reflexivity. exfalso. eapply HYz. reflexivity.
  - right. destruct Y; try reflexivity. exfalso. eapply HYz. reflexivity.
  - left. split; [|reflexivity]. destruct X; try reflexivity.
    cbn [F32.sf_sign]. rewrite HYs, andb_true_r. reflexivity.
  - destruct X, Y; cbn in HX, HY, E; discriminate.
Qed.

Lemma between_88_bounded s m e :
  Zpos m < 2 ^ 24 -> -149 <= e ->
  SFcompare (S754_finite s m e) sf_88 = Some Lt ->
  SFcompare (S754_finite s m e) sf_m88 = Some Gt ->
  finite_below 7 (S754_finite s m e).
Proof.
  intros Hm He H1 H2. cbn [finite_below].
  assert (Hle : e <= -17).
  { destruct (Z_le_gt_dec e (-17)) as [|Hgt]; [assumption|exfalso].
    unfold Z.gt in Hgt.
    destruct s; cbn [SFcompare sf_88 sf_m88] in H1, H2.
    - unfold sf_m88 in H2. cbn [SFcompare] in H2. rewrite Hgt in H2. discriminate.
    - unfold sf_88 in H1. cbn [SFcompare] in H1. rewrite Hgt in H1. discriminate. }
  split; [|split; assumption].
  eapply Z.lt_le_trans; [exact Hm|apply pow2_le; lia].
Qed.

Lemma clamp_lane_spec a :
  F32.is_nan a = false ->
  in_clamp_range (F32.of_bits (clamp_lane a)) /\
  finite_below 7 (F32.of_bits (clamp_lane a)).
Proof.
  unfold F32.is_nan, clamp_lane, F32.max, F32.min. intros Hnan.
  change (F32.of_bits (F32.of_Z 88)) with sf_88.
  change (F32.of_bits (F32.of_Z (-88))) with sf_m88.
  destruct (FPMin_cases (F32.of_bits a) sf_88 Hnan eq_refl
              ltac:(discriminate) eq_refl) as [[-> Hlt]| ->].
  - rewrite of_to_of.
    destruct (FPMax_cases (F32.of_bits a) sf_m88 Hnan eq_refl
                ltac:(discriminate) eq_refl) as [[-> Hgt]| ->].
    + rewrite of_to_of. split.
      * split; [exact Hnan|]. rewrite Hlt, Hgt. split; discriminate.
      * destruct (of_bits_is_decode a) as (s & E & f & HE & Hf & Ed).
        rewrite Ed in *.
        destruct (F32.decode s E f) as [s'|s'| |s' m e] eqn:Edec.
        -- exact I.
        -- destruct s'; cbn in Hlt, Hgt; discriminate.
        -- discriminate.
        -- destruct (decode_finite _ _ _ _ _ _ HE Hf Edec).
           apply between_88_bounded; assumption.
    + vm_compute. repeat split; discriminate || reflexivity.
  - vm_compute. repeat split; discriminate || reflexivity.
Qed.

Lemma mul_lane kx ky K a b :
  lane_below kx a -> lane_below ky b -> 0 <= kx + ky <= 100 -> K = kx + ky + 1 ->
  lane_below K (F32.mul a b).
Proof.
  intros Ha Hb HK ->. unfold F32.mul.
  apply roundtrip_bounded; [|lia]. apply mul_bounded; assumption.
Qed.

Lemma fma_lane kx ky kz K a b c :
  lane_below kx a -> lane_below ky b -> lane_below kz c ->
  kx + ky <= K - 2 -> kz <= K - 2 -> 2 <= K <= 100 ->
  lane_below K (F32.fma a b c).
Proof.
  intros Ha Hb Hc H1 H2 HK. unfold F32.fma.
  apply roundtrip_bounded; [|lia].
  replace K with (K - 2 + 2) by lia.
  apply (fma_bounded kx ky kz); assumption || lia.
Qed.

Lemma const_lanes :
  lane_below 1 (F32.of_Z 1) /\ lane_below 0 (F32.decimal 5 10) /\
  lane_below 0 (F32.decimal 16666667 100000000) /\
  lane_below 0 (F32.decimal 4166667 100000000).
Proof. vm_compute. repeat split; discriminate || reflexivity. Qed.

Lemma poly_lane_bounded x : lane_below 7 x -> lane_below 33 (poly_lane x).
Proof.
  intros Hx. destruct const_lanes as (C1 & C2 & C3 & C4).
  cbv beta zeta delta [poly_lane].
  pose proof (mul_lane 7 7 15 x x Hx Hx ltac:(lia) eq_refl) as X2.
  pose proof (mul_lane 15 7 23 _ x X2 Hx ltac:(lia) eq_refl) as X3.
  pose proof (mul_lane 23 7 31 _ x X3 Hx ltac:(lia) eq_refl) as X4.
  pose proof (fma_lane 7 1 1 10 x _ _ Hx C1 C1 ltac:(lia) ltac:(lia) ltac:(lia)) as R1.
  pose proof (fma_lane 15 0 10 17 _ _ _ X2 C2 R1 ltac:(lia) ltac:(lia) ltac:(lia)) as R2.
  pose proof (fma_lane 23 0 17 25 _ _ _ X3 C3 R2 ltac:(lia) ltac:(lia) ltac:(lia)) as R3.
  exact (fma_lane 31 0 25 33 _ _ _ X4 C4 R3 ltac:(lia) ltac:(lia) ltac:(lia)).
Qed.

Lemma poly_lane_finite x :
  lane_below 7 x -> F32.is_finite (poly_lane x) = true.
Proof.
  intros Hx. unfold F32.is_finite.
  exact (finite_below_finite 33 (F32.of_bits (poly_lane x)) (poly_lane_bounded x Hx)).
Qed.

(** ** neon_exp_f32x4 *)

Lemma poly_clamp_lane_finite a :
  F32.is_nan a = false ->
  in_clamp_range (F32.of_bits (clamp_lane a)) /\
  F32.is_finite (poly_lane (clamp_lane a)) = true.
Proof.
  intros Hn. destruct (clamp_lane_spec a Hn) as [Hr Hb]. split; [exact Hr|].
  apply poly_lane_finite. exact Hb.
Qed.

Lemma poly_clamp_lane_nan a :
  F32.is_nan a = true -> F32.is_nan (poly_lane (clamp_lane a)) = true.
Proof.
  unfold F32.is_nan at 1. intros Hn.
  assert (E : clamp_lane a = clamp_lane (F32.to_bits S754_nan)).
  { unfold clamp_lane, F32.min.
    destruct (F32.of_bits a); try discriminate. reflexivity. }
  rewrite E. vm_compute. reflexivity.
Qed.

(** C7 (as stated): a NaN lane is not clamped; the result lane is NaN, which
    is not finite. *)
Lemma neon_exp_nan_lane_not_finite :
  F32.is_nan (255 * 2 ^ 23 + 2 ^ 22) = true /\
  F32.is_finite
    (vec_lane (neon_exp_f32x4 (vdupq_n_f32 (255 * 2 ^ 23 + 2 ^ 22))) 0) = false.
Proof. vm_compute. split; reflexivity. Qed.

(** C7 (amended): every lane of [neon_exp_f32x4] is the degree-4 polynomial
    [1 + x + x^2 * 0.5f + x^3 * 0.16666667f + x^4 * 0.04166667f], evaluated
    with fused multiply-adds, of the lane clamped by [min(x, 88)] then
    [max(., -88)].  For a lane that is not NaN (infinities and values outside
    [-88, 88] included) the clamped value is in [-88, 88] and the result is
    finite; a NaN lane gives NaN. *)
Theorem neon_exp_clamped_finite : forall x : float32x4_t,
  neon_exp_f32x4 x =
    mkV4 (poly_lane (clamp_lane (lane0 x))) (poly_lane (clamp_lane (lane1 x)))
         (poly_lane (clamp_lane (lane2 x))) (poly_lane (clamp_lane (lane3 x))) /\
  forall k,
    (F32.is_nan (vec_lane x k) = false ->
     in_clamp_range (F32.of_bits (clamp_lane (vec_lane x k))) /\
     F32.is_finite (vec_lane (neon_exp_f32x4 x) k) = true) /\
    (F32.is_nan (vec_lane x k) = true ->
     F32.is_nan (vec_lane (neon_exp_f32x4 x) k) = true).
Proof.
  intros x. split; [apply neon_exp_lanes|].
  intros k. rewrite neon_exp_lanes. unfold vec_lane.
  cbn [lane0 lane1 lane2 lane3].
  destruct (k =? 0);
    [split; [apply poly_clamp_lane_finite | apply poly_clamp_lane_nan]|].
  destruct (k =? 1);
    [split; [apply poly_clamp_lane_finite | apply poly_clamp_lane_nan]|].
  destruct (k =? 2);
    [split; [apply poly_clamp_lane_finite | apply poly_clamp_lane_nan]|].
  split; [apply poly_clamp_lane_finite | apply poly_clamp_lane_nan].
Qed.

Lemma neon_exp_clamped_finite_witness :
  F32.is_nan (vec_lane (vdupq_n_f32 (255 * 2 ^ 23)) 0) = false /\
  F32.is_finite
    (vec_lane (neon_exp_f32x4 (vdupq_n_f32 (255 * 2 ^ 23))) 0) = true.
Proof.
  split; [reflexivity|].
  exact (proj2 (proj1 (proj2 (neon_exp_clamped_finite
                                (vdupq_n_f32 (255 * 2 ^ 23))) 0) eq_refl)).
Defined.

(** * Further properties of the code *)

(** ** memory_align.h: allocation *)

Lemma IS_ALIGNED_mod p : IS_ALIGNED p = true <-> p mod 16 = 0.
Proof.
  unfold IS_ALIGNED. change (NEON_ALIGNMENT - 1) with (Z.ones 4).
  rewrite Z.land_ones by lia. change (2 ^ 4) with 16. apply Z.eqb_eq.
Qed.

Lemma fresh_block_aligned m p n a :
  fresh_block m p n a = true -> p mod a = 0.
Proof.
  unfold fresh_block. rewrite !andb_true_iff.
  intros [[[[_ H] _] _] _]. apply Z.eqb_eq in H. exact H.
Qed.



(** [neon_malloc]: null with the memory untouched, or a fresh 16-byte
    aligned block. *)
Lemma neon_malloc_outcome sz env m :
  let '(p, m') := neon_malloc sz env m in
  (p = NULL /\ m' = m) \/
  (p <> NULL /\ IS_ALIGNED p = true /\ p + sz <= SizeT.modulus /\
   blocks m !! p = None /\
   (forall b s, blocks m !! b = Some s -> p + sz <= b \/ b + s <= p) /\
   m' = mkMem (contents m) (<[p := sz]> (blocks m))).
Proof.
  destruct (neon_malloc_cases sz env m) as [-> | (p & _ & Hf & ->)].
  - left. split; reflexivity.
  - right. pose proof (fresh_block_aligned _ _ _ _ Hf) as Ha.
    apply fresh_block_spec in Hf. destruct Hf as (Hp & Hb & Hn & Hd).
    split; [unfold NULL; lia|]. split; [apply IS_ALIGNED_mod; exact Ha|].
    repeat split; assumption.
Qed.



(** ** memory_align.h: aligned buffers *)

(** X3: for a capacity whose byte count fits [size_t],
    [aligned_buffer_create] returns a buffer that satisfies the buffer
    invariant, with size 0: either null data, capacity 0 and the memory
    untouched, or non-null 16-byte aligned data and the requested
    capacity. *)
Theorem create_establishes_invariant : forall cap env m,
  0 <= cap -> sizeof_float * cap < SizeT.modulus ->
  let '(b, m') := aligned_buffer_create cap env m in
  wf_buffer m' b /\ size b = 0 /\
  ((data b = NULL /\ capacity b = 0 /\ m' = m) \/
   (data b <> NULL /\ capacity b = cap /\ IS_ALIGNED (data b) = true)).
Proof.
  intros cap env m Hcap Hno. unfold aligned_buffer_create.
  assert (Hmul : SizeT.mul cap sizeof_float = sizeof_float * cap).
  { unfold SizeT.mul, sizeof_float in *. rewrite wrap_small; [lia|].
    unfold SizeT.in_range. lia. }
  rewrite Hmul.
  pose proof (neon_malloc_outcome (sizeof_float * cap) env m) as H.
  destruct (neon_malloc (sizeof_float * cap) env m) as [p m1].
  cbn [data size capacity].
  destruct H as [[-> ->] | (Hp & Ha & _ & _ & _ & ->)].
  - change (NULL =? NULL) with true. cbn [data size capacity].
    split; [|split; [reflexivity|left; auto]].
    unfold wf_buffer. cbn [data size capacity]. unfold sizeof_float in *.
    rewrite modulus_eq. repeat split; lia.
  - destruct (Z.eqb_spec p NULL) as [E|_]; [contradiction|].
    cbn [data size capacity].
    split; [|split; [reflexivity|right; auto]].
    unfold wf_buffer. cbn [data size capacity blocks].
    repeat split; try lia. intros _. apply lookup_insert_eq.
Qed.

Lemma create_establishes_invariant_witness :
  let '(b, m') := aligned_buffer_create 8 (Some 8192) mem0 in
  wf_buffer m' b /\ size b = 0 /\
  ((data b = NULL /\ capacity b = 0 /\ m' = mem0) \/
   (data b <> NULL /\ capacity b = 8 /\ IS_ALIGNED (data b) = true)).
Proof.
  apply (create_establishes_invariant 8 (Some 8192) mem0).
  - lia.
  - reflexivity.
Defined.


(** X5: on a buffer that satisfies the invariant, [aligned_buffer_clear]
    returns, sets size to 0 and keeps data and capacity, zeroes every
    float of the capacity, and changes no byte outside the buffer's block
    and no block. *)
Theorem clear_zeroes_buffer : forall m b,
  wf_buffer m b ->
  exists m',
    aligned_buffer_clear (Some b) m = Ok (Some (mkBuffer (data b) 0 (capacity b)), m') /\
    wf_buffer m' (mkBuffer (data b) 0 (capacity b)) /\
    blocks m' = blocks m /\
    (forall i, 0 <= i < capacity b -> span_get m' (data b) i = 0) /\
    (forall a, ~ (data b <= a < data b + sizeof_float * capacity b) ->
               contents m' a = contents m a).
Proof.
  intros m b (Hsz & Hcap & Hnull & Hlive). unfold aligned_buffer_clear.
  destruct (Z.eqb_spec (data b) NULL) as [E|NE].
  - specialize (Hnull E). exists m.
    assert (Hs : size b = 0) by lia.
    split; [destruct b as [d s c]; cbn in *; subst; reflexivity|].
    split; [|split; [reflexivity|split; [intros; lia|reflexivity]]].
    unfold wf_buffer. cbn [data size capacity]. repeat split; lia.
  - specialize (Hlive NE).
    assert (Hmul : SizeT.mul (capacity b) sizeof_float = sizeof_float * capacity b).
    { unfold SizeT.mul, sizeof_float in *. rewrite wrap_small; [lia|].
      unfold SizeT.in_range. lia. }
    rewrite Hmul. unfold memset.
    assert (Hin : in_block m (data b) (sizeof_float * capacity b) = true).
    { apply in_block_spec. exists (data b), (sizeof_float * capacity b).
      split; [exact Hlive|lia]. }
    rewrite Hin. cbn [obind]. eexists. split; [reflexivity|].
    split; [|split; [reflexivity|split]].
    + unfold wf_buffer. cbn [data size capacity]. rewrite write_bytes_blocks.
      repeat split; try lia. intros _. exact Hlive.
    + intros i Hi. unfold span_get, read_lane, ptr_add, sizeof_float in *.
      rewrite !write_bytes_in by lia. reflexivity.
    + intros a Ha. apply write_bytes_out. exact Ha.
Qed.

Lemma clear_zeroes_buffer_witness :
  exists m',
    aligned_buffer_clear (Some buf0) mem0
      = Ok (Some (mkBuffer (data buf0) 0 (capacity buf0)), m') /\
    wf_buffer m' (mkBuffer (data buf0) 0 (capacity buf0)) /\
    blocks m' = blocks mem0 /\
    (forall i, 0 <= i < capacity buf0 -> span_get m' (data buf0) i = 0) /\
    (forall a, ~ (data buf0 <= a < data buf0 + sizeof_float * capacity buf0) ->
               contents m' a = contents mem0 a).
Proof. apply (clear_zeroes_buffer mem0 buf0). exact wf_buf0. Defined.

(** X6: whenever [aligned_buffer_resize] returns on a buffer that
    satisfies the invariant (the requested byte count fitting [size_t]),
    the buffer it leaves satisfies the invariant in the memory it leaves,
    the capacity has not shrunk, and on Success it is at least the
    requested one. *)
Theorem resize_keeps_invariant : forall m b new_capacity env code b' m',
  wf_buffer m b ->
  sizeof_float * new_capacity < SizeT.modulus ->
  aligned_buffer_resize (Some b) new_capacity env m = Ok (code, Some b', m') ->
  wf_buffer m' b' /\ capacity b <= capacity b' /\
  (code = NEON_SUCCESS -> new_capacity <= capacity b').
Proof.
  intros m b nc env code b' m' Hwf Hno E.
  destruct (Z.le_gt_cases nc (capacity b)) as [Hle|Hgt].
  { rewrite resize_noop in E by exact Hle. injection E as <- <- <-.
    split; [exact Hwf|]. split; [lia|]. intros _. exact Hle. }
  destruct (Z.eq_dec (fst (neon_malloc (SizeT.mul nc sizeof_float) env m)) NULL)
    as [En|NE].
  { rewrite resize_oom in E by assumption. injection E as <- <- <-.
    split; [exact Hwf|]. split; [lia|]. intros C. discriminate C. }
  destruct (resize_grow b nc env m Hwf Hgt Hno NE)
    as (p & mg & Eg & Hp & Hblk & _ & _).
  rewrite Eg in E. injection E as <- <- <-.
  destruct Hwf as (Hsz & Hcap & _ & _).
  split; [|split; [cbn [capacity]; lia|intros _; cbn [capacity]; lia]].
  unfold wf_buffer. cbn [data size capacity].
  repeat split; try lia. intros _. exact Hblk.
Qed.

Lemma resize_keeps_invariant_witness :
  exists code b' m',
    aligned_buffer_resize (Some buf0) 16 (Some 8192) mem0
      = Ok (code, Some b', m') /\
    wf_buffer m' b' /\ capacity buf0 <= capacity b' /\
    (code = NEON_SUCCESS -> 16 <= capacity b').
Proof.
  do 3 eexists. split; [reflexivity|].
  apply (resize_keeps_invariant mem0 buf0 16 (Some 8192)).
  - exact wf_buf0.
  - reflexivity.
  - reflexivity.
Defined.





(** ** memory_align.h: the copy *)

(** X9: a copy between spans that do not overlap returns, and changes no
    block and no byte outside the [4 * n] bytes of the destination; in
    particular the source floats are what they were. *)
Theorem copy_only_writes_destination : forall fuel dst src n m,
  valid_span m dst n -> valid_span m src n ->
  ranges_disjoint dst src (sizeof_float * n) = true ->
  (Z.to_nat n < fuel)%nat ->
  exists m',
    neon_memory_f32 fuel dst src n m = Ok m' /\
    blocks m' = blocks m /\
    (forall a, ~ (dst <= a < dst + sizeof_float * n) ->
               contents m' a = contents m a) /\
    (forall i, 0 <= i < n -> span_get m' src i = span_get m src i).
Proof.
  intros fuel dst src n m Hdst Hsrc Hdisj Hfuel.
  destruct (copy_any_path m dst src n Hdst Hsrc Hdisj fuel Hfuel)
    as (m' & E & Hb & Hc).
  exists m'. split; [exact E|]. split; [exact Hb|].
  assert (Hout : forall a, ~ (dst <= a < dst + sizeof_float * n) ->
                           contents m' a = contents m a).
  { intros a Ha. rewrite Hc. apply write_bytes_out. exact Ha. }
  split; [exact Hout|].
  intros i Hi. unfold span_get, read_lane, ptr_add.
  unfold ranges_disjoint in Hdisj. apply orb_true_iff in Hdisj.
  rewrite !Z.leb_le in Hdisj. unfold sizeof_float in *.
  rewrite !Hout by lia. reflexivity.
Qed.

Lemma copy_only_writes_destination_witness :
  exists m',
    neon_memory_f32 22 4096 8192 21 mem1 = Ok m' /\
    blocks m' = blocks mem1 /\
    (forall a, ~ (4096 <= a < 4096 + sizeof_float * 21) ->
               contents m' a = contents mem1 a) /\
    (forall i, 0 <= i < 21 -> span_get m' 8192 i = span_get mem1 8192 i).
Proof.
  apply (copy_only_writes_destination 22 4096 8192 21 mem1).
  - unfold valid_span. rewrite modulus_eq.
    split; [lia|]. split; [lia|]. split; [unfold sizeof_float; lia|reflexivity].
  - unfold valid_span. rewrite modulus_eq.
    split; [lia|]. split; [lia|]. split; [unfold sizeof_float; lia|reflexivity].
  - reflexivity.
  - vm_compute. lia.
Defined.

(** X10: when one of the pointers is not 16-byte aligned and the two
    spans overlap, the copy is the fallback's [memcpy] on overlapping
    ranges, which is undefined. *)
Theorem copy_misaligned_overlap_faults : forall fuel dst src n m,
  valid_span m dst n -> valid_span m src n ->
  IS_ALIGNED dst = false \/ IS_ALIGNED src = false ->
  ranges_disjoint dst src (sizeof_float * n) = false ->
  neon_memory_f32 fuel dst src n m = Fault OverlappingCopy.
Proof.
  intros fuel dst src n m Hdst Hsrc Hal Hov.
  assert (Hc : negb (IS_ALIGNED dst) || negb (IS_ALIGNED src) = true)
    by (destruct Hal as [-> | ->]; [reflexivity|apply orb_true_r]).
  unfold neon_memory_f32. rewrite Hc.
  destruct Hdst as (Hd0 & Hn0 & Hdb & Hdin), Hsrc as (_ & _ & _ & Hsin).
  assert (E : SizeT.mul n sizeof_float = sizeof_float * n).
  { unfold SizeT.mul, sizeof_float in *. rewrite wrap_small; [lia|].
    unfold SizeT.in_range. lia. }
  unfold memcpy. rewrite E, Hdin, Hsin, Hov. reflexivity.
Qed.

Lemma copy_misaligned_overlap_faults_witness :
  neon_memory_f32 5 4100 4104 4 mem1 = Fault OverlappingCopy.
Proof.
  apply (copy_misaligned_overlap_faults 5 4100 4104 4 mem1).
  - unfold valid_span. rewrite modulus_eq.
    split; [lia|]. split; [lia|]. split; [unfold sizeof_float; lia|reflexivity].
  - unfold valid_span. rewrite modulus_eq.
    split; [lia|]. split; [lia|]. split; [unfold sizeof_float; lia|reflexivity].
  - left. reflexivity.
  - reflexivity.
Defined.

(** ** neon_types.h: ALIGN_UP *)

Lemma ALIGN_UP_div x :
  ALIGN_UP x = 16 * (((x + 15) mod SizeT.modulus) / 16).
Proof.
  unfold ALIGN_UP, SizeT.sub, SizeT.add, SizeT.wrap, NEON_ALIGNMENT.
  rewrite Zminus_mod_idemp_l. replace (x + 16 - 1) with (x + 15) by lia.
  set (y := (x + 15) mod SizeT.modulus).
  change (Z.lnot (16 - 1) mod SizeT.modulus)
    with (Z.land (Z.ones 64) (Z.lnot (Z.ones 4))).
  rewrite Z.land_assoc. rewrite (Z.land_ones y 64) by lia.
  change (2 ^ 64) with SizeT.modulus. unfold y at 1.
  rewrite Z.mod_mod by (rewrite modulus_eq; lia). fold y.
  rewrite <- Z.ldiff_land. rewrite Z.ldiff_ones_r by lia.
  rewrite Z.shiftr_div_pow2, Z.shiftl_mul_pow2 by lia.
  change (2 ^ 4) with 16. lia.
Qed.

(** X11: for a [size_t] value [x], [ALIGN_UP(x)] is the least multiple
    of 16 that is at least [x], and [x] itself when [x] is aligned, as long
    as [x + 15] does not wrap; when it wraps (the last 15 values of
    [size_t]) the result is 0. *)
Theorem ALIGN_UP_rounds_up : forall x,
  SizeT.in_range x ->
  (x + 15 < SizeT.modulus ->
   x <= ALIGN_UP x < x + 16 /\ IS_ALIGNED (ALIGN_UP x) = true /\
   (IS_ALIGNED x = true -> ALIGN_UP x = x)) /\
  (SizeT.modulus <= x + 15 -> ALIGN_UP x = 0).
Proof.
  intros x Hx. unfold SizeT.in_range in Hx. rewrite ALIGN_UP_div.
  rewrite modulus_eq in *. split.
  - intros Hno. rewrite Z.mod_small by lia.
    split; [Z.div_mod_to_equations; lia|].
    split.
    + apply IS_ALIGNED_mod. Z.div_mod_to_equations. lia.
    + intros Ha. apply IS_ALIGNED_mod in Ha. Z.div_mod_to_equations. lia.
  - intros Hov. Z.div_mod_to_equations. lia.
Qed.

Lemma ALIGN_UP_rounds_up_witness :
  (100 <= ALIGN_UP 100 < 100 + 16 /\ IS_ALIGNED (ALIGN_UP 100) = true /\
   (IS_ALIGNED 100 = true -> ALIGN_UP 100 = 100)) /\
  ALIGN_UP (2 ^ 64 - 3) = 0.
Proof.
  split.
  - apply (proj1 (ALIGN_UP_rounds_up 100 ltac:(unfold SizeT.in_range; rewrite modulus_eq; lia))).
    rewrite modulus_eq. lia.
  - apply (proj2 (ALIGN_UP_rounds_up (2 ^ 64 - 3)
                    ltac:(unfold SizeT.in_range; rewrite modulus_eq; lia))).
    rewrite modulus_eq. lia.
Defined.

(** ** neon_utils.h: load and store *)

Lemma read_lane_written m p v j :
  0 <= j < 4 -> is_lane (vec_lane v j) ->
  read_lane (write_bytes m p 16
               (fun k => lane_byte (vec_lane v (k / 4)) (k mod 4)))
            (p + 4 * j) = vec_lane v j.
Proof.
  intros Hj Hv. unfold read_lane. rewrite !write_bytes_in by lia.
  replace ((p + 4 * j - p) / 4) with j by (Z.div_mod_to_equations; lia).
  replace ((p + 4 * j + 1 - p) / 4) with j by (Z.div_mod_to_equations; lia).
  replace ((p + 4 * j + 2 - p) / 4) with j by (Z.div_mod_to_equations; lia).
  replace ((p + 4 * j + 3 - p) / 4) with j by (Z.div_mod_to_equations; lia).
  replace ((p + 4 * j - p) mod 4) with 0 by (Z.div_mod_to_equations; lia).
  replace ((p + 4 * j + 1 - p) mod 4) with 1 by (Z.div_mod_to_equations; lia).
  replace ((p + 4 * j + 2 - p) mod 4) with 2 by (Z.div_mod_to_equations; lia).
  replace ((p + 4 * j + 3 - p) mod 4) with 3 by (Z.div_mod_to_equations; lia).
  apply lane_of_lane_bytes. exact Hv.
Qed.

(** X12: storing a vector of four 32-bit lanes to 16 bytes inside a live
    block and loading from the same address gives the vector back; the
    store changes no block and no byte outside those 16 bytes. *)
Theorem store_load_roundtrip : forall m ptr vec,
  valid_vec vec -> in_block m ptr 16 = true ->
  exists m',
    neon_store_f32x4 m ptr vec = Ok m' /\
    neon_load_f32x4 m' ptr = Ok vec /\
    blocks m' = blocks m /\
    (forall a, ~ (ptr <= a < ptr + 16) -> contents m' a = contents m a).
Proof.
  intros m p v (H0 & H1 & H2 & H3) Hin.
  unfold neon_store_f32x4, neon_load_f32x4, vst1q_f32, vld1q_f32.
  rewrite Hin. eexists. split; [reflexivity|].
  rewrite (in_block_same_blocks m) by apply write_bytes_blocks. rewrite Hin.
  split; [|split; [reflexivity|intros a Ha; apply write_bytes_out; exact Ha]].
  f_equal.
  pose proof (read_lane_written m p v 0 ltac:(lia) H0) as E0.
  pose proof (read_lane_written m p v 1 ltac:(lia) H1) as E1.
  pose proof (read_lane_written m p v 2 ltac:(lia) H2) as E2.
  pose proof (read_lane_written m p v 3 ltac:(lia) H3) as E3.
  replace (p + 4 * 0) with p in E0 by lia.
  replace (p + 4 * 1) with (p + 4) in E1 by lia.
  replace (p + 4 * 2) with (p + 8) in E2 by lia.
  replace (p + 4 * 3) with (p + 12) in E3 by lia.
  rewrite E0, E1, E2, E3. destruct v; reflexivity.
Qed.

Lemma store_load_roundtrip_witness :
  exists m',
    neon_store_f32x4 mem0 4096 (vec_of_Z 1 2 3 4) = Ok m' /\
    neon_load_f32x4 m' 4096 = Ok (vec_of_Z 1 2 3 4) /\
    blocks m' = blocks mem0 /\
    (forall a, ~ (4096 <= a < 4096 + 16) -> contents m' a = contents mem0 a).
Proof.
  apply (store_load_roundtrip mem0 4096 (vec_of_Z 1 2 3 4)).
  - vm_compute. repeat split; discriminate.
  - reflexivity.
Defined.

(** X13: a vector that was loaded has four 32-bit lanes, and storing it
    back to the address it came from returns and changes nothing. *)
Theorem load_store_unchanged : forall m ptr vec,
  neon_load_f32x4 m ptr = Ok vec ->
  valid_vec vec /\
  exists m',
    neon_store_f32x4 m ptr vec = Ok m' /\ blocks m' = blocks m /\
    forall a, contents m' a = contents m a.
Proof.
  intros m p v. unfold neon_load_f32x4, neon_store_f32x4, vld1q_f32, vst1q_f32.
  destruct (in_block m p 16); [|discriminate]. intros [= <-].
  split; [repeat split; apply lane_of_bytes_range|].
  eexists. split; [reflexivity|]. split; [reflexivity|].
  intros a. destruct (Z_le_dec p a) as [H1|H1];
    [destruct (Z_lt_dec a (p + 16)) as [H2|H2]|].
  - rewrite write_bytes_in by lia. rewrite vec_lane_bytes by lia. f_equal. lia.
  - apply write_bytes_out. lia.
  - apply write_bytes_out. lia.
Qed.

Lemma load_store_unchanged_witness :
  valid_vec (mkV4 0 0 0 0) /\
  exists m',
    neon_store_f32x4 mem0 4096 (mkV4 0 0 0 0) = Ok m' /\
    blocks m' = blocks mem0 /\
    forall a, contents m' a = contents mem0 a.
Proof.
  apply (load_store_unchanged mem0 4096 (mkV4 0 0 0 0)). reflexivity.
Defined.

(** X14: when 16 bytes are readable at [ptr], the broadcast load gives the
    broadcast of lane 0 of the full load; it reads the first float only. *)
Theorem load_broadcast_is_lane0 : forall m ptr w,
  neon_load_f32x4 m ptr = Ok w ->
  neon_load_broadcast_f32 m ptr = Ok (neon_broadcast_f32 (vec_lane w 0)).
Proof.
  intros m ptr w.
  unfold neon_load_f32x4, neon_load_broadcast_f32, vld1q_f32, vld1q_dup_f32.
  destruct (in_block m ptr 16) eqn:Hin; [|discriminate]. intros [= <-].
  assert (H4 : in_block m ptr 4 = true).
  { apply in_block_spec in Hin. destruct Hin as (b & s & Hb & H1 & H2).
    apply in_block_spec. exists b, s. split; [exact Hb|lia]. }
  rewrite H4. reflexivity.
Qed.

Lemma load_broadcast_is_lane0_witness :
  neon_load_broadcast_f32 mem1 4096
    = Ok (neon_broadcast_f32 (vec_lane (mkV4 0x04030201 0x08070605 0x0C0B0A09 0x100F0E0D) 0)).
Proof.
  apply (load_broadcast_is_lane0 mem1 4096). reflexivity.
Defined.

(** ** neon_utils.h: comparison and select *)

Lemma select_lane (c : bool) a b :
  is_lane a -> is_lane b ->
  Z.lor (Z.land a (if c then 2 ^ 32 - 1 else 0))
        (Z.ldiff b (if c then 2 ^ 32 - 1 else 0)) = if c then a else b.
Proof.
  intros Ha Hb. destruct c.
  - change (2 ^ 32 - 1) with (Z.ones 32).
    rewrite Z.land_ones by lia. rewrite Z.mod_small by exact Ha.
    rewrite Z.ldiff_ones_r by lia. rewrite Z.shiftr_div_pow2 by lia.
    rewrite Z.div_small by exact Hb. rewrite Z.shiftl_0_l. apply Z.lor_0_r.
  - rewrite Z.land_0_r, Z.ldiff_0_r. reflexivity.
Qed.

(** X15: selecting with the mask of a comparison: each lane of
    [select(cmpgt(c, d), a, b)] is the lane of [a] where [c > d] and the
    lane of [b] elsewhere (also where [c] or [d] is NaN). *)
Theorem select_on_comparison : forall c d a b : float32x4_t,
  valid_vec a -> valid_vec b ->
  forall k,
    vec_lane (neon_select_f32x4 (neon_cmpgt_f32x4 c d) a b) k =
      if F32.gtb (vec_lane c k) (vec_lane d k) then vec_lane a k
      else vec_lane b k.
Proof.
  intros c d a b (A0 & A1 & A2 & A3) (B0 & B1 & B2 & B3) k.
  unfold neon_select_f32x4, neon_cmpgt_f32x4, vbslq_f32, vcgtq_f32,
    vec_map3, vec_map2, vec_lane.
  cbn [lane0 lane1 lane2 lane3].
  destruct (k =? 0); [apply select_lane; assumption|].
  destruct (k =? 1); [apply select_lane; assumption|].
  destruct (k =? 2); [apply select_lane; assumption|].
  apply select_lane; assumption.
Qed.

Lemma select_on_comparison_witness :
  vec_lane (neon_select_f32x4
              (neon_cmpgt_f32x4 (vec_of_Z 1 5 3 2) (vec_of_Z 2 2 2 2))
              (vec_of_Z 10 20 30 40) NEON_ZEROS) 1 =
    if F32.gtb (vec_lane (vec_of_Z 1 5 3 2) 1) (vec_lane (vec_of_Z 2 2 2 2) 1)
    then vec_lane (vec_of_Z 10 20 30 40) 1
    else vec_lane NEON_ZEROS 1.
Proof.
  apply (select_on_comparison (vec_of_Z 1 5 3 2) (vec_of_Z 2 2 2 2)
           (vec_of_Z 10 20 30 40) NEON_ZEROS).
  - vm_compute. repeat split; discriminate.
  - vm_compute. repeat split; discriminate.
Defined.

(** ** neon_utils.h: symmetry of the arithmetic *)

Lemma SFmul_comm x y : SFmul 24 128 x y = SFmul 24 128 y x.
Proof.
  destruct x as [sx|sx| |sx mx ex], y as [sy|sy| |sy my ey]; cbn [SFmul];
    rewrite ?(xorb_comm sx sy); try reflexivity.
  rewrite (Pos.mul_comm mx my), (Z.add_comm ex ey). reflexivity.
Qed.

Lemma SFadd_comm x y : SFadd 24 128 x y = SFadd 24 128 y x.
Proof.
  destruct x as [sx|sx| |sx mx ex], y as [sy|sy| |sy my ey]; cbn [SFadd];
    try reflexivity.
  - destruct sx, sy; reflexivity.
  - destruct sx, sy; reflexivity.
  - rewrite (Z.min_comm ex ey).
    rewrite (Z.add_comm (cond_Zopp sx _)). reflexivity.
Qed.

(** X16: on vectors without NaN lanes, addition, multiplication and the
    4-lane dot product do not depend on the order of their arguments, bit
    for bit. *)
Theorem arithmetic_symmetric : forall a b : float32x4_t,
  no_nan a -> no_nan b ->
  neon_add_f32x4 a b = neon_add_f32x4 b a /\
  neon_mul_f32x4 a b = neon_mul_f32x4 b a /\
  neon_dot_f32x4 a b = neon_dot_f32x4 b a.
Proof.
  intros a b _ _.
  assert (Hm : neon_mul_f32x4 a b = neon_mul_f32x4 b a).
  { unfold neon_mul_f32x4, vmulq_f32, vec_map2, F32.mul.
    rewrite (SFmul_comm (F32.of_bits (lane0 a))),
      (SFmul_comm (F32.of_bits (lane1 a))),
      (SFmul_comm (F32.of_bits (lane2 a))),
      (SFmul_comm (F32.of_bits (lane3 a))). reflexivity. }
  split; [|split; [exact Hm|]].
  - unfold neon_add_f32x4, vaddq_f32, vec_map2, F32.add.
    rewrite (SFadd_comm (F32.of_bits (lane0 a))),
      (SFadd_comm (F32.of_bits (lane1 a))),
      (SFadd_comm (F32.of_bits (lane2 a))),
      (SFadd_comm (F32.of_bits (lane3 a))). reflexivity.
  - unfold neon_dot_f32x4. unfold neon_mul_f32x4 in Hm. rewrite Hm. reflexivity.
Qed.

Lemma arithmetic_symmetric_witness :
  neon_add_f32x4 (vec_of_Z 1 2 3 4) (vec_of_Z 5 6 7 8)
    = neon_add_f32x4 (vec_of_Z 5 6 7 8) (vec_of_Z 1 2 3 4) /\
  neon_mul_f32x4 (vec_of_Z 1 2 3 4) (vec_of_Z 5 6 7 8)
    = neon_mul_f32x4 (vec_of_Z 5 6 7 8) (vec_of_Z 1 2 3 4) /\
  neon_dot_f32x4 (vec_of_Z 1 2 3 4) (vec_of_Z 5 6 7 8)
    = neon_dot_f32x4 (vec_of_Z 5 6 7 8) (vec_of_Z 1 2 3 4).
Proof.
  apply (arithmetic_symmetric (vec_of_Z 1 2 3 4) (vec_of_Z 5 6 7 8)).
  - vm_compute. repeat split.
  - vm_compute. repeat split.
Defined.

(** ** The order of floats *)

Lemma compare_key x y :
  F32.sf_is_nan x = false -> F32.sf_is_nan y = false ->
  match SFcompare x y with
  | Some Lt => key_lt (sf_key x) (sf_key y)
  | Some Eq => sf_key x = sf_key y
  | Some Gt => key_lt (sf_key y) (sf_key x)
  | None => False
  end.
Proof.
  destruct x as [sx|sx| |sx mx ex], y as [sy|sy| |sy my ey];
    cbn [F32.sf_is_nan]; try discriminate; intros _ _;
    cbn [SFcompare sf_key].
  all: try (destruct sx; try destruct sy; cbn [key_lt]; (reflexivity || lia)).
  all: try (destruct sy; cbn [key_lt]; (reflexivity || lia)).
  destruct sx, sy; cbn [key_lt]; try lia.
  - destruct (Z.compare_spec ex ey) as [E|L|G]; try lia.
    change (Pos.compare_cont Eq mx my) with (Pos.compare mx my).
    destruct (Pos.compare_spec mx my) as [E'|L'|G']; cbn [CompOpp]; subst;
      try reflexivity; lia.
  - destruct (Z.compare_spec ex ey) as [E|L|G]; try lia.
    change (Pos.compare_cont Eq mx my) with (Pos.compare mx my).
    destruct (Pos.compare_spec mx my) as [E'|L'|G']; subst;
      try reflexivity; lia.
Qed.

Lemma key_lt_irrefl a : ~ key_lt a a.
Proof. destruct a as [[a1 a2] a3]. cbn [key_lt]. lia. Qed.

Lemma key_lt_asym a b : key_lt a b -> ~ key_lt b a.
Proof.
  destruct a as [[a1 a2] a3], b as [[b1 b2] b3]. cbn [key_lt]. lia.
Qed.

Lemma key_le_trans a b c : ~ key_lt b a -> ~ key_lt c b -> ~ key_lt c a.
Proof.
  destruct a as [[a1 a2] a3], b as [[b1 b2] b3], c as [[c1 c2] c3].
  cbn [key_lt]. lia.
Qed.

Lemma key_lt_le_trans a b c : key_lt a b -> ~ key_lt c b -> key_lt a c.
Proof.
  destruct a as [[a1 a2] a3], b as [[b1 b2] b3], c as [[c1 c2] c3].
  cbn [key_lt]. lia.
Qed.

Lemma compare_not_nan x y :
  F32.sf_is_nan x = false -> F32.sf_is_nan y = false ->
  exists c, SFcompare x y = Some c.
Proof.
  intros Hx Hy. pose proof (compare_key x y Hx Hy) as H.
  destruct (SFcompare x y) as [c|]; [eauto|contradiction].
Qed.

Lemma compare_Lt_iff x y :
  F32.sf_is_nan x = false -> F32.sf_is_nan y = false ->
  (SFcompare x y = Some Lt <-> key_lt (sf_key x) (sf_key y)).
Proof.
  intros Hx Hy. pose proof (compare_key x y Hx Hy) as H.
  destruct (SFcompare x y) as [[| |]|]; split; intros C;
    try discriminate; try reflexivity; try assumption; try contradiction.
  - rewrite H in C. exfalso. exact (key_lt_irrefl _ C).
  - exfalso. exact (key_lt_asym _ _ H C).
Qed.

Lemma compare_Gt_iff x y :
  F32.sf_is_nan x = false -> F32.sf_is_nan y = false ->
  (SFcompare x y = Some Gt <-> key_lt (sf_key y) (sf_key x)).
Proof.
  intros Hx Hy. pose proof (compare_key x y Hx Hy) as H.
  destruct (SFcompare x y) as [[| |]|]; split; intros C;
    try discriminate; try reflexivity; try assumption; try contradiction.
  - rewrite H in C. exfalso. exact (key_lt_irrefl _ C).
  - exfalso. exact (key_lt_asym _ _ H C).
Qed.

Lemma compare_Eq_iff x y :
  F32.sf_is_nan x = false -> F32.sf_is_nan y = false ->
  (SFcompare x y = Some Eq <-> sf_key x = sf_key y).
Proof.
  intros Hx Hy. pose proof (compare_key x y Hx Hy) as H.
  destruct (SFcompare x y) as [[| |]|]; split; intros C;
    try discriminate; try reflexivity; try assumption; try contradiction.
  - rewrite C in H. exfalso. exact (key_lt_irrefl _ H).
  - rewrite C in H. exfalso. exact (key_lt_irrefl _ H).
Qed.

(** ** FPMax and FPMin *)

Lemma FPMax_nan x y :
  F32.sf_is_nan (F32.FPMax x y) = F32.sf_is_nan x || F32.sf_is_nan y.
Proof.
  unfold F32.FPMax.
  destruct x as [sx|sx| |sx mx ex], y as [sy|sy| |sy my ey];
    cbn [SFcompare F32.sf_is_nan orb]; try reflexivity.
  all: repeat match goal with
       | |- context [match ?c with Eq => _ | Lt => _ | Gt => _ end] =>
           destruct c
       | |- context [if ?b then _ else _] => destruct b
       end; reflexivity.
Qed.

Lemma FPMin_nan x y :
  F32.sf_is_nan (F32.FPMin x y) = F32.sf_is_nan x || F32.sf_is_nan y.
Proof.
  unfold F32.FPMin.
  destruct x as [sx|sx| |sx mx ex], y as [sy|sy| |sy my ey];
    cbn [SFcompare F32.sf_is_nan orb]; try reflexivity.
  all: repeat match goal with
       | |- context [match ?c with Eq => _ | Lt => _ | Gt => _ end] =>
           destruct c
       | |- context [if ?b then _ else _] => destruct b
       end; reflexivity.
Qed.

Lemma zero_fix_key r s :
  sf_key (match r with S754_zero _ => S754_zero s | _ => r end) = sf_key r.
Proof. destruct r; reflexivity. Qed.

Lemma FPMax_key x y :
  F32.sf_is_nan x = false -> F32.sf_is_nan y = false ->
  (sf_key (F32.FPMax x y) = sf_key x /\ ~ key_lt (sf_key x) (sf_key y)) \/
  (sf_key (F32.FPMax x y) = sf_key y /\ ~ key_lt (sf_key y) (sf_key x)).
Proof.
  intros Hx Hy. pose proof (compare_key x y Hx Hy) as H. unfold F32.FPMax.
  destruct (SFcompare x y) as [[| |]|]; [| | |contradiction];
    rewrite zero_fix_key.
  - right. split; [reflexivity|]. rewrite H. apply key_lt_irrefl.
  - right. split; [reflexivity|]. apply key_lt_asym. exact H.
  - left. split; [reflexivity|]. apply key_lt_asym. exact H.
Qed.

Lemma FPMin_key x y :
  F32.sf_is_nan x = false -> F32.sf_is_nan y = false ->
  (sf_key (F32.FPMin x y) = sf_key x /\ ~ key_lt (sf_key y) (sf_key x)) \/
  (sf_key (F32.FPMin x y) = sf_key y /\ ~ key_lt (sf_key x) (sf_key y)).
Proof.
  intros Hx Hy. pose proof (compare_key x y Hx Hy) as H. unfold F32.FPMin.
  destruct (SFcompare x y) as [[| |]|]; [| | |contradiction];
    rewrite zero_fix_key.
  - right. split; [reflexivity|]. rewrite H. apply key_lt_irrefl.
  - left. split; [reflexivity|]. apply key_lt_asym. exact H.
  - right. split; [reflexivity|]. apply key_lt_asym. exact H.
Qed.

(** Floats that encoding and decoding give back. *)
Lemma stable_of_bits w : stable (F32.of_bits w).
Proof. apply of_to_of. Qed.

Lemma stable_zero s : stable (S754_zero s).
Proof. destruct s; reflexivity. Qed.

Lemma stable_zero_fix r s :
  stable r -> stable (match r with S754_zero _ => S754_zero s | _ => r end).
Proof. destruct r; auto using stable_zero. Qed.

Lemma stable_FPMax x y : stable x -> stable y -> stable (F32.FPMax x y).
Proof.
  intros Hx Hy. unfold F32.FPMax.
  destruct (SFcompare x y) as [[| |]|]; try (apply stable_zero_fix; assumption).
  reflexivity.
Qed.

Lemma stable_FPMin x y : stable x -> stable y -> stable (F32.FPMin x y).
Proof.
  intros Hx Hy. unfold F32.FPMin.
  destruct (SFcompare x y) as [[| |]|]; try (apply stable_zero_fix; assumption).
  reflexivity.
Qed.

Lemma of_bits_max a b :
  F32.of_bits (F32.max a b) = F32.FPMax (F32.of_bits a) (F32.of_bits b).
Proof. unfold F32.max. apply stable_FPMax; apply stable_of_bits. Qed.

Lemma of_bits_min a b :
  F32.of_bits (F32.min a b) = F32.FPMin (F32.of_bits a) (F32.of_bits b).
Proof. unfold F32.min. apply stable_FPMin; apply stable_of_bits. Qed.

Lemma key_antisym a b : ~ key_lt a b -> ~ key_lt b a -> a = b.
Proof.
  destruct a as [[a1 a2] a3], b as [[b1 b2] b3]. cbn [key_lt]. intros H1 H2.
  assert (a1 = b1) by lia. assert (a2 = b2) by lia. assert (a3 = b3) by lia.
  congruence.
Qed.

Lemma FPMax_upper x y :
  F32.sf_is_nan x = false -> F32.sf_is_nan y = false ->
  ~ key_lt (sf_key (F32.FPMax x y)) (sf_key x) /\
  ~ key_lt (sf_key (F32.FPMax x y)) (sf_key y) /\
  (sf_key (F32.FPMax x y) = sf_key x \/ sf_key (F32.FPMax x y) = sf_key y).
Proof.
  intros Hx Hy. destruct (FPMax_key x y Hx Hy) as [[E H]|[E H]]; rewrite E.
  - split; [apply key_lt_irrefl|]. split; [exact H|left; reflexivity].
  - split; [exact H|]. split; [apply key_lt_irrefl|right; reflexivity].
Qed.

Lemma FPMin_lower x y :
  F32.sf_is_nan x = false -> F32.sf_is_nan y = false ->
  ~ key_lt (sf_key x) (sf_key (F32.FPMin x y)) /\
  ~ key_lt (sf_key y) (sf_key (F32.FPMin x y)) /\
  (sf_key (F32.FPMin x y) = sf_key x \/ sf_key (F32.FPMin x y) = sf_key y).
Proof.
  intros Hx Hy. destruct (FPMin_key x y Hx Hy) as [[E H]|[E H]]; rewrite E.
  - split; [apply key_lt_irrefl|]. split; [exact H|left; reflexivity].
  - split; [exact H|]. split; [apply key_lt_irrefl|right; reflexivity].
Qed.

Lemma ltb_false_of_key a b :
  ~ key_lt (sf_key (F32.of_bits a)) (sf_key (F32.of_bits b)) ->
  F32.is_nan a = false -> F32.is_nan b = false -> F32.ltb a b = false.
Proof.
  intros H Ha Hb. unfold F32.ltb.
  destruct (SFcompare (F32.of_bits a) (F32.of_bits b)) as [[| |]|] eqn:E;
    try reflexivity.
  exfalso. apply H. apply compare_Lt_iff; assumption.
Qed.

Lemma gtb_false_of_key a b :
  ~ key_lt (sf_key (F32.of_bits b)) (sf_key (F32.of_bits a)) ->
  F32.is_nan a = false -> F32.is_nan b = false -> F32.gtb a b = false.
Proof.
  intros H Ha Hb. unfold F32.gtb.
  destruct (SFcompare (F32.of_bits a) (F32.of_bits b)) as [[| |]|] eqn:E;
    try reflexivity.
  exfalso. apply H. apply compare_Gt_iff; assumption.
Qed.

Lemma key_of_ltb_false a b :
  F32.is_nan a = false -> F32.is_nan b = false -> F32.ltb a b = false ->
  ~ key_lt (sf_key (F32.of_bits a)) (sf_key (F32.of_bits b)).
Proof.
  intros Ha Hb H C. apply compare_Lt_iff in C; [|assumption..].
  unfold F32.ltb in H. rewrite C in H. discriminate.
Qed.

Lemma key_of_gtb_false a b :
  F32.is_nan a = false -> F32.is_nan b = false -> F32.gtb a b = false ->
  ~ key_lt (sf_key (F32.of_bits b)) (sf_key (F32.of_bits a)).
Proof.
  intros Ha Hb H C. apply compare_Gt_iff in C; [|assumption..].
  unfold F32.gtb in H. rewrite C in H. discriminate.
Qed.

Lemma is_nan_max a b : F32.is_nan (F32.max a b) = F32.is_nan a || F32.is_nan b.
Proof. unfold F32.is_nan. rewrite of_bits_max. apply FPMax_nan. Qed.

Lemma is_nan_min a b : F32.is_nan (F32.min a b) = F32.is_nan a || F32.is_nan b.
Proof. unfold F32.is_nan. rewrite of_bits_min. apply FPMin_nan. Qed.

(** X17: the horizontal maximum and the horizontal minimum are NaN
    exactly when some lane is NaN. *)
Theorem reductions_propagate_nan : forall v : float32x4_t,
  F32.is_nan (neon_max_f32x4 v) =
    (F32.is_nan (lane0 v) || F32.is_nan (lane1 v))
    || (F32.is_nan (lane2 v) || F32.is_nan (lane3 v)) /\
  F32.is_nan (neon_min_f32x4 v) =
    (F32.is_nan (lane0 v) || F32.is_nan (lane1 v))
    || (F32.is_nan (lane2 v) || F32.is_nan (lane3 v)).
Proof.
  intros v. unfold neon_max_f32x4, neon_min_f32x4, vmaxvq_f32, vminvq_f32.
  rewrite !is_nan_max, !is_nan_min. split; reflexivity.
Qed.

Lemma FPMax4 A B C D :
  F32.sf_is_nan A = false -> F32.sf_is_nan B = false ->
  F32.sf_is_nan C = false -> F32.sf_is_nan D = false ->
  let R := F32.FPMax (F32.FPMax A B) (F32.FPMax C D) in
  F32.sf_is_nan R = false /\
  (~ key_lt (sf_key R) (sf_key A) /\ ~ key_lt (sf_key R) (sf_key B) /\
   ~ key_lt (sf_key R) (sf_key C) /\ ~ key_lt (sf_key R) (sf_key D)) /\
  (sf_key R = sf_key A \/ sf_key R = sf_key B \/
   sf_key R = sf_key C \/ sf_key R = sf_key D).
Proof.
  intros HA HB HC HD R.
  assert (H1 : F32.sf_is_nan (F32.FPMax A B) = false)
    by (rewrite FPMax_nan, HA, HB; reflexivity).
  assert (H2 : F32.sf_is_nan (F32.FPMax C D) = false)
    by (rewrite FPMax_nan, HC, HD; reflexivity).
  destruct (FPMax_upper A B HA HB) as (UA & UB & E1).
  destruct (FPMax_upper C D HC HD) as (UC & UD & E2).
  destruct (FPMax_upper _ _ H1 H2) as (U1 & U2 & E).
  fold R in U1, U2, E.
  split; [unfold R; rewrite FPMax_nan, H1, H2; reflexivity|].
  split.
  - repeat split.
    + exact (key_le_trans _ _ _ UA U1).
    + exact (key_le_trans _ _ _ UB U1).
    + exact (key_le_trans _ _ _ UC U2).
    + exact (key_le_trans _ _ _ UD U2).
  - destruct E as [E|E]; rewrite E.
    + destruct E1 as [E1|E1]; rewrite E1; auto.
    + destruct E2 as [E2|E2]; rewrite E2; auto.
Qed.

Lemma FPMin4 A B C D :
  F32.sf_is_nan A = false -> F32.sf_is_nan B = false ->
  F32.sf_is_nan C = false -> F32.sf_is_nan D = false ->
  let R := F32.FPMin (F32.FPMin A B) (F32.FPMin C D) in
  F32.sf_is_nan R = false /\
  (~ key_lt (sf_key A) (sf_key R) /\ ~ key_lt (sf_key B) (sf_key R) /\
   ~ key_lt (sf_key C) (sf_key R) /\ ~ key_lt (sf_key D) (sf_key R)) /\
  (sf_key R = sf_key A \/ sf_key R = sf_key B \/
   sf_key R = sf_key C \/ sf_key R = sf_key D).
Proof.
  intros HA HB HC HD R.
  assert (H1 : F32.sf_is_nan (F32.FPMin A B) = false)
    by (rewrite FPMin_nan, HA, HB; reflexivity).
  assert (H2 : F32.sf_is_nan (F32.FPMin C D) = false)
    by (rewrite FPMin_nan, HC, HD; reflexivity).
  destruct (FPMin_lower A B HA HB) as (UA & UB & E1).
  destruct (FPMin_lower C D HC HD) as (UC & UD & E2).
  destruct (FPMin_lower _ _ H1 H2) as (U1 & U2 & E).
  fold R in U1, U2, E.
  split; [unfold R; rewrite FPMin_nan, H1, H2; reflexivity|].
  split.
  - repeat split.
    + exact (key_le_trans _ _ _ U1 UA).
    + exact (key_le_trans _ _ _ U1 UB).
    + exact (key_le_trans _ _ _ U2 UC).
    + exact (key_le_trans _ _ _ U2 UD).
  - destruct E as [E|E]; rewrite E.
    + destruct E1 as [E1|E1]; rewrite E1; auto.
    + destruct E2 as [E2|E2]; rewrite E2; auto.
Qed.

Lemma vec_lane_cases (P : Z -> Prop) v :
  P (lane0 v) -> P (lane1 v) -> P (lane2 v) -> P (lane3 v) ->
  forall k, P (vec_lane v k).
Proof.
  intros H0 H1 H2 H3 k. unfold vec_lane.
  destruct (k =? 0); [exact H0|]. destruct (k =? 1); [exact H1|].
  destruct (k =? 2); [exact H2|exact H3].
Qed.

Lemma of_bits_vmaxv v :
  F32.of_bits (vmaxvq_f32 v) =
    F32.FPMax (F32.FPMax (F32.of_bits (lane0 v)) (F32.of_bits (lane1 v)))
              (F32.FPMax (F32.of_bits (lane2 v)) (F32.of_bits (lane3 v))).
Proof. unfold vmaxvq_f32. rewrite !of_bits_max. reflexivity. Qed.

Lemma of_bits_vminv v :
  F32.of_bits (vminvq_f32 v) =
    F32.FPMin (F32.FPMin (F32.of_bits (lane0 v)) (F32.of_bits (lane1 v)))
              (F32.FPMin (F32.of_bits (lane2 v)) (F32.of_bits (lane3 v))).
Proof. unfold vminvq_f32. rewrite !of_bits_min. reflexivity. Qed.

(** X18: on a vector without NaN lanes the horizontal maximum is not NaN,
    is below no lane, and compares equal to one of the four lanes. *)
Theorem horizontal_max_is_greatest : forall v : float32x4_t,
  no_nan v ->
  F32.is_nan (neon_max_f32x4 v) = false /\
  (forall k, F32.ltb (neon_max_f32x4 v) (vec_lane v k) = false) /\
  exists k, 0 <= k < 4 /\
    SFcompare (F32.of_bits (neon_max_f32x4 v)) (F32.of_bits (vec_lane v k))
      = Some Eq.
Proof.
  intros v (H0 & H1 & H2 & H3). unfold neon_max_f32x4.
  pose proof (FPMax4 _ _ _ _ H0 H1 H2 H3) as H. cbv zeta in H.
  rewrite <- of_bits_vmaxv in H. destruct H as (Hn & (U0 & U1 & U2 & U3) & E).
  split; [exact Hn|]. split.
  - apply (vec_lane_cases (fun w => F32.ltb (vmaxvq_f32 v) w = false));
      apply ltb_false_of_key; trivial.
  - destruct E as [E|[E|[E|E]]];
      [exists 0|exists 1|exists 2|exists 3]; (split; [lia|]);
      apply compare_Eq_iff; trivial.
Qed.

Lemma horizontal_max_is_greatest_witness :
  F32.is_nan (neon_max_f32x4 (vec_of_Z 1 5 3 2)) = false /\
  (forall k, F32.ltb (neon_max_f32x4 (vec_of_Z 1 5 3 2))
                     (vec_lane (vec_of_Z 1 5 3 2) k) = false) /\
  exists k, 0 <= k < 4 /\
    SFcompare (F32.of_bits (neon_max_f32x4 (vec_of_Z 1 5 3 2)))
              (F32.of_bits (vec_lane (vec_of_Z 1 5 3 2) k)) = Some Eq.
Proof.
  apply (horizontal_max_is_greatest (vec_of_Z 1 5 3 2)).
  vm_compute. repeat split.
Defined.

(** X19: on a vector without NaN lanes the horizontal minimum is not NaN,
    is above no lane, and compares equal to one of the four lanes. *)
Theorem horizontal_min_is_least : forall v : float32x4_t,
  no_nan v ->
  F32.is_nan (neon_min_f32x4 v) = false /\
  (forall k, F32.gtb (neon_min_f32x4 v) (vec_lane v k) = false) /\
  exists k, 0 <= k < 4 /\
    SFcompare (F32.of_bits (neon_min_f32x4 v)) (F32.of_bits (vec_lane v k))
      = Some Eq.
Proof.
  intros v (H0 & H1 & H2 & H3). unfold neon_min_f32x4.
  pose proof (FPMin4 _ _ _ _ H0 H1 H2 H3) as H. cbv zeta in H.
  rewrite <- of_bits_vminv in H. destruct H as (Hn & (U0 & U1 & U2 & U3) & E).
  split; [exact Hn|]. split.
  - apply (vec_lane_cases (fun w => F32.gtb (vminvq_f32 v) w = false));
      apply gtb_false_of_key; trivial.
  - destruct E as [E|[E|[E|E]]];
      [exists 0|exists 1|exists 2|exists 3]; (split; [lia|]);
      apply compare_Eq_iff; trivial.
Qed.

Lemma horizontal_min_is_least_witness :
  F32.is_nan (neon_min_f32x4 (vec_of_Z 1 5 3 2)) = false /\
  (forall k, F32.gtb (neon_min_f32x4 (vec_of_Z 1 5 3 2))
                     (vec_lane (vec_of_Z 1 5 3 2) k) = false) /\
  exists k, 0 <= k < 4 /\
    SFcompare (F32.of_bits (neon_min_f32x4 (vec_of_Z 1 5 3 2)))
              (F32.of_bits (vec_lane (vec_of_Z 1 5 3 2) k)) = Some Eq.
Proof.
  apply (horizontal_min_is_least (vec_of_Z 1 5 3 2)).
  vm_compute. repeat split.
Defined.

Lemma clamp_lane_keys x lo hi :
  F32.is_nan x = false -> F32.is_nan lo = false -> F32.is_nan hi = false ->
  F32.ltb hi lo = false ->
  let r := F32.min (F32.max x lo) hi in
  F32.is_nan r = false /\ F32.ltb r lo = false /\ F32.gtb r hi = false /\
  (F32.ltb x lo = false -> F32.gtb x hi = false ->
   SFcompare (F32.of_bits r) (F32.of_bits x) = Some Eq).
Proof.
  intros Hx Hlo Hhi Hord r.
  assert (Hy : F32.is_nan (F32.max x lo) = false)
    by (rewrite is_nan_max, Hx, Hlo; reflexivity).
  assert (Hr : F32.is_nan r = false)
    by (unfold r; rewrite is_nan_min, Hy, Hhi; reflexivity).
  pose proof (key_of_ltb_false hi lo Hhi Hlo Hord) as Kord.
  destruct (FPMax_upper _ _ Hx Hlo) as (UX & UL & EY).
  rewrite <- of_bits_max in UX, UL, EY.
  destruct (FPMin_lower _ _ Hy Hhi) as (LY & LH & ER).
  rewrite <- of_bits_min in LY, LH, ER. fold r in LY, LH, ER.
  split; [exact Hr|]. split; [|split].
  - apply ltb_false_of_key; trivial.
    destruct ER as [ER|ER]; rewrite ER; [exact UL|exact Kord].
  - apply gtb_false_of_key; trivial.
  - intros Hge Hle.
    pose proof (key_of_ltb_false x lo Hx Hlo Hge) as K1.
    pose proof (key_of_gtb_false x hi Hx Hhi Hle) as K2.
    apply compare_Eq_iff; trivial.
    assert (EYX : sf_key (F32.of_bits (F32.max x lo)) = sf_key (F32.of_bits x)).
    { destruct EY as [EY|EY]; [exact EY|].
      apply key_antisym; [exact UX|]. rewrite EY. exact K1. }
    destruct ER as [ER|ER]; [rewrite ER; exact EYX|].
    apply key_antisym.
    + rewrite ER. exact K2.
    + rewrite <- EYX. exact LY.
Qed.

(** X20: with bounds that are not NaN and [max_val] not below [min_val],
    a lane of [neon_clamp_f32x4] that is not NaN on input is not NaN on
    output, is not below [min_val] and not above [max_val], and compares
    equal to the input lane when that lane is already within the bounds. *)
Theorem clamp_stays_in_range : forall (vec : float32x4_t) min_val max_val k,
  F32.is_nan (vec_lane vec k) = false ->
  F32.is_nan min_val = false -> F32.is_nan max_val = false ->
  F32.ltb max_val min_val = false ->
  let r := vec_lane (neon_clamp_f32x4 vec min_val max_val) k in
  F32.is_nan r = false /\ F32.ltb r min_val = false /\
  F32.gtb r max_val = false /\
  (F32.ltb (vec_lane vec k) min_val = false ->
   F32.gtb (vec_lane vec k) max_val = false ->
   SFcompare (F32.of_bits r) (F32.of_bits (vec_lane vec k)) = Some Eq).
Proof.
  intros vec min_val max_val k Hx Hlo Hhi Hord.
  assert (E : vec_lane (neon_clamp_f32x4 vec min_val max_val) k =
              F32.min (F32.max (vec_lane vec k) min_val) max_val).
  { unfold neon_clamp_f32x4, vminq_f32, vmaxq_f32, vdupq_n_f32, vec_map2, vec_lane.
    cbn [lane0 lane1 lane2 lane3].
    destruct (k =? 0); [reflexivity|]. destruct (k =? 1); [reflexivity|].
    destruct (k =? 2); reflexivity. }
  cbv zeta. rewrite E.
  exact (clamp_lane_keys (vec_lane vec k) min_val max_val Hx Hlo Hhi Hord).
Qed.

Lemma clamp_stays_in_range_witness :
  let r := vec_lane (neon_clamp_f32x4 (vec_of_Z (-3) 2 9 4) (F32.of_Z 0) (F32.of_Z 6)) 2 in
  F32.is_nan r = false /\ F32.ltb r (F32.of_Z 0) = false /\
  F32.gtb r (F32.of_Z 6) = false /\
  (F32.ltb (vec_lane (vec_of_Z (-3) 2 9 4) 2) (F32.of_Z 0) = false ->
   F32.gtb (vec_lane (vec_of_Z (-3) 2 9 4) 2) (F32.of_Z 6) = false ->
   SFcompare (F32.of_bits r) (F32.of_bits (vec_lane (vec_of_Z (-3) 2 9 4) 2))
     = Some Eq).
Proof.
  apply (clamp_stays_in_range (vec_of_Z (-3) 2 9 4) (F32.of_Z 0) (F32.of_Z 6) 2).
  - vm_compute. reflexivity.
  - vm_compute. reflexivity.
  - vm_compute. reflexivity.
  - vm_compute. reflexivity.
Defined.

Lemma key_le_lt_trans a b c : ~ key_lt b a -> key_lt b c -> key_lt a c.
Proof.
  destruct a as [[a1 a2] a3], b as [[b1 b2] b3], c as [[c1 c2] c3].
  cbn [key_lt]. lia.
Qed.

Lemma clamp_lane_high a :
  F32.is_nan a = false -> F32.ltb a (F32.of_Z 88) = false ->
  clamp_lane a = F32.of_Z 88.
Proof.
  unfold F32.is_nan, F32.ltb, clamp_lane, F32.max, F32.min. intros Hnan Hge.
  change (F32.of_bits (F32.of_Z 88)) with sf_88 in *.
  change (F32.of_bits (F32.of_Z (-88))) with sf_m88.
  destruct (FPMin_cases (F32.of_bits a) sf_88 Hnan eq_refl
              ltac:(discriminate) eq_refl) as [[_ Hlt]| ->].
  - rewrite Hlt in Hge. discriminate.
  - vm_compute. reflexivity.
Qed.

Lemma clamp_lane_low a :
  F32.is_nan a = false -> F32.gtb a (F32.of_Z (-88)) = false ->
  clamp_lane a = F32.of_Z (-88).
Proof.
  intros Hnan Hle.
  assert (Hm : F32.is_nan (F32.of_Z (-88)) = false) by reflexivity.
  pose proof (key_of_gtb_false a _ Hnan Hm Hle) as K.
  unfold F32.is_nan, F32.gtb in *. unfold clamp_lane, F32.max, F32.min.
  change (F32.of_bits (F32.of_Z 88)) with sf_88 in *.
  change (F32.of_bits (F32.of_Z (-88))) with sf_m88 in *.
  assert (Hlt : SFcompare (F32.of_bits a) sf_88 = Some Lt).
  { apply compare_Lt_iff; [exact Hnan|reflexivity|].
    apply (key_le_lt_trans _ (sf_key sf_m88)); [exact K|].
    cbn [sf_key sf_m88 sf_88 key_lt]. lia. }
  assert (E : F32.FPMin (F32.of_bits a) sf_88 = F32.of_bits a).
  { destruct (FPMin_cases (F32.of_bits a) sf_88 Hnan eq_refl
                ltac:(discriminate) eq_refl) as [[E _]|E]; [exact E|].
    unfold F32.FPMin in E. rewrite Hlt in E.
    destruct (F32.of_bits a) as [s|s| |s m e]; try discriminate E.
    rewrite E in Hlt. vm_compute in Hlt. discriminate Hlt. }
  rewrite E, of_to_of.
  destruct (FPMax_cases (F32.of_bits a) sf_m88 Hnan eq_refl
              ltac:(discriminate) eq_refl) as [[_ Hgt]| ->].
  - rewrite Hgt in Hle. discriminate.
  - vm_compute. reflexivity.
Qed.

Lemma exp_lane x k :
  vec_lane (neon_exp_f32x4 x) k = poly_lane (clamp_lane (vec_lane x k)).
Proof.
  rewrite neon_exp_lanes. unfold vec_lane. cbn [lane0 lane1 lane2 lane3].
  destruct (k =? 0); [reflexivity|]. destruct (k =? 1); [reflexivity|].
  destruct (k =? 2); reflexivity.
Qed.

Lemma poly_at_bounds :
  F32.of_bits (poly_lane (F32.of_Z 88)) = S754_finite false 10465083 (-2) /\
  F32.of_bits (poly_lane (F32.of_Z (-88))) = S754_finite false 9555749 (-2).
Proof. vm_compute. split; reflexivity. Qed.

(** X21: [neon_exp_f32x4] saturates: every lane that is not NaN and not
    below 88 (positive infinity included) gives 2616270.75
    ([10465083 * 2^-2]), and every lane that is not NaN and not above -88
    (negative infinity included) gives 2388937.25 ([9555749 * 2^-2]). *)
Theorem exp_saturates : forall (x : float32x4_t) k,
  F32.is_nan (vec_lane x k) = false ->
  (F32.ltb (vec_lane x k) (F32.of_Z 88) = false ->
   F32.of_bits (vec_lane (neon_exp_f32x4 x) k)
     = S754_finite false 10465083 (-2)) /\
  (F32.gtb (vec_lane x k) (F32.of_Z (-88)) = false ->
   F32.of_bits (vec_lane (neon_exp_f32x4 x) k)
     = S754_finite false 9555749 (-2)).
Proof.
  intros x k Hnan. rewrite exp_lane. split; intros H.
  - rewrite (clamp_lane_high _ Hnan H). exact (proj1 poly_at_bounds).
  - rewrite (clamp_lane_low _ Hnan H). exact (proj2 poly_at_bounds).
Qed.

Lemma exp_saturates_witness :
  F32.of_bits (vec_lane (neon_exp_f32x4 (vec_of_Z 100 (-100) 0 1)) 0)
    = S754_finite false 10465083 (-2) /\
  F32.of_bits (vec_lane (neon_exp_f32x4 (vec_of_Z 100 (-100) 0 1)) 1)
    = S754_finite false 9555749 (-2).
Proof.
  split.
  - apply (proj1 (exp_saturates (vec_of_Z 100 (-100) 0 1) 0 eq_refl)).
    vm_compute. reflexivity.
  - apply (proj2 (exp_saturates (vec_of_Z 100 (-100) 0 1) 1 eq_refl)).
    vm_compute. reflexivity.
Defined.

Lemma key_eq x y :
  sf_key x = sf_key y ->
  x = y \/ (exists s t, x = S754_zero s /\ y = S754_zero t) .
Proof.
  destruct x as [s|s| |s m e], y as [t|t| |t n f];
    try destruct s; try destruct t; cbn [sf_key]; intros H;
    try discriminate H; try (left; reflexivity);
    try (right; eexists; eexists; split; reflexivity).
  - left. injection H as H1 H2. assert (e = f) by lia.
    assert (m = n) by lia. subst. reflexivity.
  - left. injection H as H1 H2. assert (m = n) by lia. subst. reflexivity.
Qed.

Lemma compare_nan_l y : SFcompare S754_nan y = None.
Proof. reflexivity. Qed.

Lemma compare_nan_r x : SFcompare x S754_nan = None.
Proof. destruct x as [s|s| |s m e]; try destruct s; reflexivity. Qed.

Lemma zero_fix_comm (r : spec_float) (a b : bool) (f : bool -> bool -> bool) :
  (forall u v, f u v = f v u) ->
  match r with S754_zero _ => S754_zero (f a b) | _ => r end =
  match r with S754_zero _ => S754_zero (f b a) | _ => r end.
Proof. intros Hf. destruct r; try reflexivity. rewrite Hf. reflexivity. Qed.

Lemma FPMax_comm x y : F32.FPMax x y = F32.FPMax y x.
Proof.
  destruct (F32.sf_is_nan x) eqn:Hx.
  { destruct x; try discriminate Hx. unfold F32.FPMax.
    rewrite compare_nan_l, compare_nan_r. reflexivity. }
  destruct (F32.sf_is_nan y) eqn:Hy.
  { destruct y; try discriminate Hy. unfold F32.FPMax.
    rewrite compare_nan_l, compare_nan_r. reflexivity. }
  pose proof (compare_key x y Hx Hy) as H1.
  pose proof (compare_key y x Hy Hx) as H2.
  unfold F32.FPMax.
  destruct (SFcompare x y) as [[| |]|], (SFcompare y x) as [[| |]|];
    try contradiction;
    try (exfalso; rewrite H1 in H2; exact (key_lt_irrefl _ H2));
    try (exfalso; rewrite H2 in H1; exact (key_lt_irrefl _ H1));
    try (exfalso; exact (key_lt_asym _ _ H1 H2));
    try (apply (zero_fix_comm _ _ _ andb); exact andb_comm).
  destruct (key_eq x y H1) as [->|(s & t & -> & ->)]; [reflexivity|].
  rewrite andb_comm. reflexivity.
Qed.

Lemma FPMin_comm x y : F32.FPMin x y = F32.FPMin y x.
Proof.
  destruct (F32.sf_is_nan x) eqn:Hx.
  { destruct x; try discriminate Hx. unfold F32.FPMin.
    rewrite compare_nan_l, compare_nan_r. reflexivity. }
  destruct (F32.sf_is_nan y) eqn:Hy.
  { destruct y; try discriminate Hy. unfold F32.FPMin.
    rewrite compare_nan_l, compare_nan_r. reflexivity. }
  pose proof (compare_key x y Hx Hy) as H1.
  pose proof (compare_key y x Hy Hx) as H2.
  unfold F32.FPMin.
  destruct (SFcompare x y) as [[| |]|], (SFcompare y x) as [[| |]|];
    try contradiction;
    try (exfalso; rewrite H1 in H2; exact (key_lt_irrefl _ H2));
    try (exfalso; rewrite H2 in H1; exact (key_lt_irrefl _ H1));
    try (exfalso; exact (key_lt_asym _ _ H1 H2));
    try (apply (zero_fix_comm _ _ _ orb); exact orb_comm).
  destruct (key_eq x y H1) as [->|(s & t & -> & ->)]; [reflexivity|].
  rewrite orb_comm. reflexivity.
Qed.

(** X22: on vectors without NaN lanes, the lane-wise maximum and minimum
    do not depend on the order of their arguments, bit for bit, signed
    zeros included. *)
Theorem max_min_symmetric : forall a b : float32x4_t,
  no_nan a -> no_nan b ->
  neon_vmax_f32x4 a b = neon_vmax_f32x4 b a /\
  neon_vmin_f32x4 a b = neon_vmin_f32x4 b a.
Proof.
  intros a b _ _.
  unfold neon_vmax_f32x4, neon_vmin_f32x4, vmaxq_f32, vminq_f32, vec_map2,
    F32.max, F32.min.
  split; f_equal; f_equal; apply FPMax_comm || apply FPMin_comm.
Qed.

Lemma max_min_symmetric_witness :
  neon_vmax_f32x4 (vec_of_Z 1 5 3 2) (vec_of_Z 2 2 2 2)
    = neon_vmax_f32x4 (vec_of_Z 2 2 2 2) (vec_of_Z 1 5 3 2) /\
  neon_vmin_f32x4 (vec_of_Z 1 5 3 2) (vec_of_Z 2 2 2 2)
    = neon_vmin_f32x4 (vec_of_Z 2 2 2 2) (vec_of_Z 1 5 3 2).
Proof.
  apply (max_min_symmetric (vec_of_Z 1 5 3 2) (vec_of_Z 2 2 2 2)).
  - vm_compute. repeat split.
  - vm_compute. repeat split.
Defined.
